(** * The Lemmy engine of searx ([searx/engines/lemmy.py])

    A shallow embedding of the engine's two entry points, [request] and
    [response], together with the pieces of the Python runtime they rely on:
    dictionaries, subscripting, iteration, exceptions, and
    [urllib.parse.urlencode].

    Python [str] values are represented by their UTF-8 byte sequence (the
    encoding [urlencode] applies before quoting), i.e. by Rocq's [string]; a
    [str] holding a lone surrogate has no such sequence and is not
    represented. *)

From Stdlib Require Import ZArith Ascii String DecimalString DecimalZ.
From stdpp Require Import base option list strings gmap.

Local Open Scope Z_scope.
Local Set Warnings "-register-all".

(** ** Python values and exceptions *)

(** The values [resp.json()] can produce and that a [params] dictionary can
    hold.  Integers are unbounded; a float is carried as its binary64 bit
    pattern, since no operation of the engine looks inside one.  A dictionary
    nested in a value is the list of its items in insertion order; its keys
    are distinct, and a lookup takes the first item with the key. *)
Inductive pyval : Type :=
  | PNone
  | PBool (b : bool)
  | PInt (z : Z)
  | PFloat (bits : Z)
  | PStr (s : string)
  | PList (l : list pyval)
  | PDict (d : list (string * pyval)).

Inductive exn : Type :=
  | KeyError (key : string)
  | TypeError
  | AttributeError
  | ValueError (msg : string)
  | JSONDecodeError.

(** The exceptions the specification classes as a malformed response: a
    failed lookup or a value of the wrong type. *)
Definition MalformedResponse (e : exn) : Prop :=
  match e with
  | KeyError _ | TypeError | AttributeError => True
  | _ => False
  end.

Inductive result (A : Type) : Type :=
  | Ok (a : A)
  | Err (e : exn).
Arguments Ok {A} a.
Arguments Err {A} e.

#[global] Instance result_ret : MRet result := @Ok.
#[global] Instance result_bind : MBind result := λ A B f m,
  match m with
  | Ok a => f a
  | Err e => Err e
  end.

(** ** Byte strings *)

Module Str.

Fixpoint mem (c : ascii) (s : string) : bool :=
  match s with
  | EmptyString => false
  | String c' s' => Ascii.eqb c c' || mem c s'
  end.

(** [s.replace(a, b)] for one-character [a] and [b]. *)
Fixpoint replace (a b : ascii) (s : string) : string :=
  match s with
  | EmptyString => EmptyString
  | String c s' => String (if Ascii.eqb c a then b else c) (replace a b s')
  end.

(** [sep.join(l)]. *)
Fixpoint join (sep : string) (l : list string) : string :=
  match l with
  | [] => ""
  | [x] => x
  | x :: l' => x +:+ sep +:+ join sep l'
  end.

(** [s.split(sep)] for a one-character separator, as the pair of the first
    field and the list of the following ones. *)
Fixpoint split_aux (sep : ascii) (s : string) : string * list string :=
  match s with
  | EmptyString => (EmptyString, [])
  | String c s' =>
      let '(w, ws) := split_aux sep s' in
      if Ascii.eqb c sep then (EmptyString, w :: ws) else (String c w, ws)
  end.

Definition split (sep : ascii) (s : string) : list string :=
  let '(w, ws) := split_aux sep s in w :: ws.

(** [s.partition(sep)]: the text before the first [sep], whether [sep]
    occurs, the text after it. *)
Fixpoint partition (sep : ascii) (s : string) : string * bool * string :=
  match s with
  | EmptyString => (EmptyString, false, EmptyString)
  | String c s' =>
      if Ascii.eqb c sep then (EmptyString, true, s')
      else let '(a, f, b) := partition sep s' in (String c a, f, b)
  end.

Definition is_empty (s : string) : bool :=
  match s with EmptyString => true | _ => false end.

End Str.

(** ** [urllib.parse]: quoting *)

Definition _ALWAYS_SAFE : string :=
  "ABCDEFGHIJKLMNOPQRSTUVWXYZabcdefghijklmnopqrstuvwxyz0123456789_.-~".

Definition hex_upper (n : N) : ascii :=
  match String.get (N.to_nat n) "0123456789ABCDEF" with
  | Some c => c
  | None => "0"%char
  end.

(** ['%{:02X}'.format(byte)] *)
Definition percent (c : ascii) : string :=
  let n := N_of_ascii c in
  String "%" (String (hex_upper (n / 16)) (String (hex_upper (n mod 16)) "")).

(** [quote_from_bytes(bs, safe)]: bytes of [_ALWAYS_SAFE] and of [safe] are
    kept, every other byte becomes [%XX]. *)
Fixpoint quote_from_bytes (safe : string) (bs : string) : string :=
  match bs with
  | EmptyString => EmptyString
  | String c bs' =>
      (if Str.mem c _ALWAYS_SAFE || Str.mem c safe
       then String c "" else percent c) +:+ quote_from_bytes safe bs'
  end.

(** [quote(string, safe)] on a [str]: encode to UTF-8 (the identity on this
    representation), then [quote_from_bytes]. *)
Definition quote (s : string) (safe : string) : string :=
  quote_from_bytes safe s.

(** [quote_plus(string, safe='')] *)
Definition quote_plus (s : string) : string :=
  if negb (Str.mem " " s) then quote s ""
  else Str.replace " " "+" (quote s " ").

(** What [quote_plus] comes to, byte by byte: a space becomes [+], a safe byte
    stays, any other byte is percent-encoded. *)
Definition plus_byte (c : ascii) : string :=
  if Ascii.eqb c " " then "+"
  else if Str.mem c _ALWAYS_SAFE then String c ""
  else percent c.

Fixpoint plus_bytes (s : string) : string :=
  match s with
  | EmptyString => EmptyString
  | String c s' => plus_byte c +:+ plus_bytes s'
  end.

(** ** [urllib.parse]: unquoting, as the receiving side performs it *)

Definition hex_value (c : ascii) : option N :=
  let n := N_of_ascii c in
  if (48 <=? n)%N && (n <=? 57)%N then Some (n - 48)%N
  else if (65 <=? n)%N && (n <=? 70)%N then Some (n - 55)%N
  else if (97 <=? n)%N && (n <=? 102)%N then Some (n - 87)%N
  else None.

(** [unquote_to_bytes]: a [%] followed by two hexadecimal digits is one byte;
    any other [%] is kept as it is. *)
Fixpoint unquote (s : string) : string :=
  match s with
  | EmptyString => EmptyString
  | String c s' =>
      if Ascii.eqb c "%" then
        match s' with
        | String h (String l rest) =>
            match hex_value h, hex_value l with
            | Some a, Some b => String (ascii_of_N (16 * a + b)) (unquote rest)
            | _, _ => String c (unquote s')
            end
        | _ => String c (unquote s')
        end
      else String c (unquote s')
  end.

Definition unquote_plus (s : string) : string :=
  unquote (Str.replace "+" " " s).

(** [parse_qsl(qs, keep_blank_values=True)]: the decoding of an
    [application/x-www-form-urlencoded] query string into its list of
    (name, value) pairs. *)
Definition parse_qsl (qs : string) : list (string * string) :=
  flat_map
    (λ name_value,
       if Str.is_empty name_value then []
       else
         let '(name, _, value) := Str.partition "=" name_value in
         [(unquote_plus name, unquote_plus value)])
    (Str.split "&" qs).

(** ** Python's [str()] *)

(** The decimal numeral of an integer, with a leading [-] below zero. *)
Definition decimal (z : Z) : string := NilZero.string_of_int (Z.to_int z).

(** The number of digits of that numeral, the sign not counted. *)
Definition digits (z : Z) : nat := String.length (decimal (Z.abs z)).

(** [sys.int_info.default_max_str_digits] *)
Definition max_str_digits : nat := 4300.

(** [str(int)]: the decimal numeral.  CPython refuses to convert an integer
    of more than [max_str_digits] digits and raises a [ValueError]. *)
Definition str_of_int (z : Z) : result string :=
  if (max_str_digits <? digits z)%nat then
    Err (ValueError
           ("Exceeds the limit (4300 digits) for integer string conversion; " +:+
            "use sys.set_int_max_str_digits() to increase the limit"))
  else Ok (decimal z).

(** [int(s)] on a decimal numeral. *)
Definition int_of_str (s : string) : option Z :=
  Z.of_int <$> NilZero.int_of_string s.

(** ** Subscripting, [dict.get] and iteration *)

Fixpoint dict_lookup (k : string) (d : list (string * pyval)) : option pyval :=
  match d with
  | [] => None
  | (k', v) :: d' => if String.eqb k k' then Some v else dict_lookup k d'
  end.

(** [v[k]] for a string key [k]: only a dictionary can be subscripted by a
    string; a missing key is a [KeyError]. *)
Definition getitem (v : pyval) (k : string) : result pyval :=
  match v with
  | PDict d =>
      match dict_lookup k d with
      | Some x => Ok x
      | None => Err (KeyError k)
      end
  | _ => Err TypeError
  end.

(** [v.get(k, default)]: a method of dictionaries only. *)
Definition dict_get (v : pyval) (k : string) (default : pyval) : result pyval :=
  match v with
  | PDict d =>
      match dict_lookup k d with
      | Some x => Ok x
      | None => Ok default
      end
  | _ => Err AttributeError
  end.

(** The elements a [for] loop runs over: those of a list, the keys of a
    dictionary, the one-character strings of a string (one per byte in this
    representation); anything else is not iterable. *)
Definition iter (v : pyval) : result (list pyval) :=
  match v with
  | PList l => Ok l
  | PDict d => Ok (map (λ kv, PStr kv.1) d)
  | PStr s => Ok (map (λ c, PStr (String c "")) (list_ascii_of_string s))
  | _ => Err TypeError
  end.

(** [for x in items: results.append(body(x))], then [results]. *)
Fixpoint for_append {A} (body : pyval → result A) (items : list pyval)
    (results : list A) : result (list A) :=
  match items with
  | [] => Ok results
  | x :: rest => r ← body x; for_append body rest (results ++ [r])
  end.

(** ** What the engine imports and does not define *)

(** [MarkdownIt(...).enable(...).render] and [searx.utils.html_to_text] on
    strings, and the builtin [repr] that [str()] falls back to on floats and
    containers; [repr] can raise (an integer of too many digits inside a
    list, a nesting that is too deep). *)
Class Externals := {
  MarkdownIt_render : string → string;
  html_to_text : string → string;
  repr : pyval → result string;
}.

(** ** The interpreter state: module globals and dictionary objects *)

Definition loc := nat.

Record interp := Interp {
  base_url : string;
  lemmy_type : string;
  heap : gmap loc (gmap string pyval);
}.

Definition set_heap (h : gmap loc (gmap string pyval)) (st : interp) : interp :=
  {| base_url := base_url st; lemmy_type := lemmy_type st; heap := h |}.

Definition py (A : Type) : Type := interp → result A * interp.

#[global] Instance py_ret : MRet py := λ A a st, (Ok a, st).
#[global] Instance py_bind : MBind py := λ A B f m st,
  match m st with
  | (Ok a, st') => f a st'
  | (Err e, st') => (Err e, st')
  end.

Definition raise {A} (e : exn) : py A := λ st, (Err e, st).
Definition lift {A} (r : result A) : py A := λ st, (r, st).
Definition global {A} (var : interp → A) : py A := λ st, (Ok (var st), st).

(** [obj[k]] on a reference.  A location holding no dictionary stands for an
    object that cannot be subscripted. *)
Definition load_item (obj : loc) (k : string) : py pyval := λ st,
  match heap st !! obj with
  | Some d =>
      match d !! k with
      | Some v => (Ok v, st)
      | None => (Err (KeyError k), st)
      end
  | None => (Err TypeError, st)
  end.

(** [obj[k] = v] on a reference: the dictionary object is updated in place. *)
Definition store_item (obj : loc) (k : string) (v : pyval) : py unit := λ st,
  match heap st !! obj with
  | Some d => (Ok (), set_heap (<[obj := <[k := v]> d]> (heap st)) st)
  | None => (Err TypeError, st)
  end.

(** The HTTP response handed to [response]; [resp.json()] either yields the
    decoded body or raises. *)
Record Response := { Response_json : result pyval }.

(** A result item, the dictionary with keys [url], [title] and [content]. *)
Record Result := { url : pyval; title : pyval; content : string }.

Definition kinds : list string := ["Communities"; "Users"; "Posts"; "Comments"].

Section Engine.
Context `{!Externals}.

Definition str (v : pyval) : result string :=
  match v with
  | PStr s => Ok s
  | PInt z => str_of_int z
  | PBool true => Ok "True"
  | PBool false => Ok "False"
  | PNone => Ok "None"
  | _ => repr v
  end.

(** [urlencode(query)] on a dictionary with [str] keys: one [k=v] field per
    item, in order, each value converted with [str] and quoted; the fields
    are then joined with [&]. *)
Definition urlencode (query : list (string * pyval)) : result string :=
  l ← mapM (λ '(k, v),
              v' ← str v; mret (quote_plus k +:+ "=" +:+ quote_plus v'))
           query;
  mret (Str.join "&" l).

Definition request (query : string) (params : loc) : py loc :=
  pageno ← load_item params "pageno";
  type_ ← global lemmy_type;
  let args := [("q", PStr query); ("page", pageno); ("type_", PStr type_)] in
  base ← global base_url;
  encoded ← lift (urlencode args);
  store_item params "url" (PStr (base +:+ "api/v3/search?" +:+ encoded));;
  mret params.

(** [render] rejects anything but a [str] with a [TypeError]. *)
Definition _format_content (content : pyval) : result string :=
  match content with
  | PStr s => Ok (html_to_text (MarkdownIt_render s))
  | _ => Err TypeError
  end.

Definition _get_communities (json : pyval) : result (list Result) :=
  array ← getitem json "communities";
  items ← iter array;
  for_append
    (λ result,
       u ← getitem result "community" ≫= λ o, getitem o "actor_id";
       t ← getitem result "community" ≫= λ o, getitem o "title";
       c ← getitem result "community" ≫= λ o,
             dict_get o "description" (PStr "") ≫= _format_content;
       mret {| url := u; title := t; content := c |})
    items [].

Definition _get_users (json : pyval) : result (list Result) :=
  array ← getitem json "users";
  items ← iter array;
  for_append
    (λ result,
       u ← getitem result "person" ≫= λ o, getitem o "actor_id";
       t ← getitem result "person" ≫= λ o, getitem o "name";
       c ← getitem result "person" ≫= λ o,
             dict_get o "bio" (PStr "") ≫= _format_content;
       mret {| url := u; title := t; content := c |})
    items [].

Definition _get_posts (json : pyval) : result (list Result) :=
  array ← getitem json "posts";
  items ← iter array;
  for_append
    (λ result,
       u ← getitem result "post" ≫= λ o, getitem o "ap_id";
       t ← getitem result "post" ≫= λ o, getitem o "name";
       c ← getitem result "post" ≫= λ o,
             dict_get o "body" (PStr "") ≫= _format_content;
       mret {| url := u; title := t; content := c |})
    items [].

Definition _get_comments (json : pyval) : result (list Result) :=
  array ← getitem json "comments";
  items ← iter array;
  for_append
    (λ result,
       u ← getitem result "comment" ≫= λ o, getitem o "ap_id";
       t ← getitem result "post" ≫= λ o, getitem o "name";
       c ← getitem result "comment" ≫= λ o,
             getitem o "content" ≫= _format_content;
       mret {| url := u; title := t; content := c |})
    items [].

Definition response (resp : Response) : py (list Result) :=
  json ← lift (Response_json resp);
  type_ ← global lemmy_type;
  if String.eqb type_ "Communities" then lift (_get_communities json)
  else if String.eqb type_ "Users" then lift (_get_users json)
  else if String.eqb type_ "Posts" then lift (_get_posts json)
  else if String.eqb type_ "Comments" then lift (_get_comments json)
  else raise (ValueError ("Unsupported lemmy type: " +:+ type_)).

End Engine.

(** ** The dispatch table of the specification *)

(** One line of the table: the source array, the (sub-object, field) paths of
    the url, title and content, and the default of an optional content. *)
Record row := Row {
  source_array : string;
  url_field : string * string;
  title_field : string * string;
  content_field : string * string;
  content_default : option string;
}.

Definition dispatch_table (kind : string) : option row :=
  if String.eqb kind "Communities" then
    Some (Row "communities" ("community", "actor_id") ("community", "title")
              ("community", "description") (Some ""))
  else if String.eqb kind "Users" then
    Some (Row "users" ("person", "actor_id") ("person", "name")
              ("person", "bio") (Some ""))
  else if String.eqb kind "Posts" then
    Some (Row "posts" ("post", "ap_id") ("post", "name")
              ("post", "body") (Some ""))
  else if String.eqb kind "Comments" then
    Some (Row "comments" ("comment", "ap_id") ("post", "name")
              ("comment", "content") None)
  else None.

(** [e.sub.field], when both lookups succeed. *)
Definition at_path (e : pyval) (path : string * string) : option pyval :=
  match getitem e path.1 with
  | Ok o => match getitem o path.2 with Ok v => Some v | Err _ => None end
  | Err _ => None
  end.

(** The raw content of an element: the content field of its sub-object, or the
    line's default when the sub-object has no such field. *)
Definition content_source (r : row) (e : pyval) : option pyval :=
  match getitem e (content_field r).1 with
  | Ok (PDict d) =>
      match dict_lookup (content_field r).2 d with
      | Some v => Some v
      | None => PStr <$> content_default r
      end
  | _ => None
  end.

(** The content field is absent from the element's sub-object. *)
Definition content_absent (r : row) (e : pyval) : Prop :=
  ∃ d, getitem e (content_field r).1 = Ok (PDict d) ∧
       dict_lookup (content_field r).2 d = None.

Section Table.
Context `{!Externals}.

(** The markdown-to-plain-text conversion on a string. *)
Definition render_excerpt (text : string) : string :=
  html_to_text (MarkdownIt_render text).

(** [it] is the item that the line [r] of the table describes for [e]. *)
Definition emits (r : row) (e : pyval) (it : Result) : Prop :=
  at_path e (url_field r) = Some (url it) ∧
  at_path e (title_field r) = Some (title it) ∧
  ∃ text, content_source r e = Some (PStr text) ∧
          content it = render_excerpt text.

(** The table read as a program: one extraction function for all kinds. *)
Definition row_item (r : row) (e : pyval) : result Result :=
  u ← getitem e (url_field r).1 ≫= λ o, getitem o (url_field r).2;
  t ← getitem e (title_field r).1 ≫= λ o, getitem o (title_field r).2;
  c ← getitem e (content_field r).1 ≫= λ o,
        match content_default r with
        | Some d => dict_get o (content_field r).2 (PStr d)
        | None => getitem o (content_field r).2
        end ≫= _format_content;
  mret {| url := u; title := t; content := c |}.

(** The table-driven reading of a whole response: the source array is
    subscripted, iterated and mapped, element by element and in order. *)
Definition parse (r : row) (json : pyval) : result (list Result) :=
  array ← getitem json (source_array r);
  items ← iter array;
  mapM (row_item r) items.

(** One [key=value] field of a query string. *)
Definition field (kv : string * string) : string :=
  quote_plus kv.1 +:+ "=" +:+ quote_plus kv.2.

(** The dictionary [args] of [request], as a function of its inputs. *)
Definition args_of (st : interp) (query : string) (pageno : pyval)
    : list (string * pyval) :=
  [("q", PStr query); ("page", pageno); ("type_", PStr (lemmy_type st))].

End Table.

(** ** Concrete collaborators and states, for evaluating the model *)

(** Stand-ins that leave the text as it is. *)
Definition plain : Externals :=
  {| MarkdownIt_render := λ s, s; html_to_text := λ s, s;
     repr := λ _, Ok "" |}.

Definition lemmy_ml (kind : string) (pageno : Z) : interp :=
  {| base_url := "https://lemmy.ml/"; lemmy_type := kind;
     heap := {[ 1%nat := {[ "pageno" := PInt pageno ]} ]} |}.

Definition obj (fields : list (string * string)) : pyval :=
  PDict (map (λ '(k, v), (k, PStr v)) fields).

Definition thread_x : pyval :=
  PDict [("comment", obj [("ap_id", "https://x/comment/1"); ("content", "hi")]);
         ("post", obj [("name", "Thread X")])].

Definition no_content : pyval :=
  PDict [("comment", obj [("ap_id", "https://x/comment/2")]);
         ("post", obj [("name", "Thread Y")])].

Definition foo : pyval :=
  PDict [("community", obj [("actor_id", "https://x/c/foo"); ("title", "Foo")])].

Definition body (key : string) (elems : list pyval) : Response :=
  {| Response_json := Ok (PDict [(key, PList elems)]) |}.

(** ** Characters of a query string and keys of a table line *)

Fixpoint all_chars (p : ascii → bool) (s : string) : bool :=
  match s with
  | EmptyString => true
  | String c s' => p c && all_chars p s'
  end.

(** The characters a query string is made of: the always-safe ones, [+] and
    [%] from quoting, [=] and [&] between names and values. *)
Definition query_char (c : ascii) : bool :=
  Str.mem c _ALWAYS_SAFE || Str.mem c "+%=&".

(** The characters of a quoted name or value: as above, without the two
    separators. *)
Definition value_char (c : ascii) : bool :=
  Str.mem c _ALWAYS_SAFE || Str.mem c "+%".

(** The [application/x-www-form-urlencoded] form of a list of (name, value)
    pairs: every name and value escaped byte by byte (a space as [+], any
    other byte outside the unreserved ones as [%XX]), [=] between a name and
    its value, [&] between the pairs. *)
Definition form_urlencoded (pairs : list (string * string)) : string :=
  Str.join "&" (map (λ kv, plus_bytes kv.1 +:+ "=" +:+ plus_bytes kv.2) pairs).

(** The keys that reading one response by the line [r] subscripts with. *)
Definition row_keys (r : row) : list string :=
  [source_array r; (url_field r).1; (url_field r).2; (title_field r).1;
   (title_field r).2; (content_field r).1; (content_field r).2].

(** A response body with further top-level keys and a second page. *)
Definition bar : pyval :=
  PDict [("community", PDict [("actor_id", PStr "https://x/c/bar");
                              ("title", PStr "Bar");
                              ("description", PNone)])].

Definition foo_more : pyval :=
  PDict [("counts", PDict [("subscribers", PInt 7)]);
         ("community", PDict [("id", PInt 3);
                              ("actor_id", PStr "https://x/c/foo");
                              ("title", PStr "Foo")])].

(** * Properties *)

(** ** Byte strings *)

Module StrFacts.

Lemma mem_app c (a b : string) :
  Str.mem c (a +:+ b) = Str.mem c a || Str.mem c b.
Proof.
  induction a as [|x a IH]; simpl; [done |].
  by rewrite IH, orb_assoc.
Qed.

Lemma replace_app x y (a b : string) :
  Str.replace x y (a +:+ b) = Str.replace x y a +:+ Str.replace x y b.
Proof. induction a as [|c a IH]; simpl; [done | by rewrite IH]. Qed.

Lemma split_aux_sep sep (a b : string) :
  Str.mem sep a = false →
  Str.split_aux sep (a +:+ String sep b) = (a, Str.split sep b).
Proof.
  unfold Str.split. induction a as [|c a IH]; simpl.
  - intros _. rewrite Ascii.eqb_refl. by destruct (Str.split_aux sep b).
  - intros [Hc Ha]%orb_false_elim. rewrite (IH Ha).
    by rewrite Ascii.eqb_sym, Hc.
Qed.

Lemma split_aux_none sep (a : string) :
  Str.mem sep a = false → Str.split_aux sep a = (a, []).
Proof.
  induction a as [|c a IH]; simpl; [done |].
  intros [Hc Ha]%orb_false_elim. rewrite (IH Ha).
  by rewrite Ascii.eqb_sym, Hc.
Qed.

(** Splitting a joined list gives the list back when no field contains the
    separator; the empty list is joined to the empty string, which splits
    into one empty field. *)
Lemma split_join sep (x : string) (l : list string) :
  Forall (λ f, Str.mem sep f = false) (x :: l) →
  Str.split sep (Str.join (String sep "") (x :: l)) = x :: l.
Proof.
  revert x. induction l as [|y l IH]; intros x Hall; unfold Str.split.
  - simpl. by rewrite split_aux_none by (by inversion Hall).
  - change (Str.join (String sep "") (x :: y :: l))
      with (x +:+ String sep (Str.join (String sep "") (y :: l))).
    inversion Hall as [|? ? Hx Hrest]; subst.
    by rewrite (split_aux_sep _ _ _ Hx), (IH y Hrest).
Qed.

Lemma partition_sep sep (a b : string) :
  Str.mem sep a = false →
  Str.partition sep (a +:+ String sep b) = (a, true, b).
Proof.
  induction a as [|c a IH]; simpl.
  - intros _. by rewrite Ascii.eqb_refl.
  - intros [Hc Ha]%orb_false_elim. rewrite (IH Ha).
    by rewrite Ascii.eqb_sym, Hc.
Qed.

End StrFacts.

(** ** Quoting and unquoting *)

Module Quote.

Ltac each_byte c := destruct c as [[] [] [] [] [] [] [] []].

Lemma byte_plain c :
  Ascii.eqb " " c = false →
  (if Str.mem c _ALWAYS_SAFE || Str.mem c "" then String c "" else percent c)
  = plus_byte c.
Proof. each_byte c; intros Hc; try reflexivity; discriminate Hc. Qed.

Lemma byte_space c :
  Str.replace " " "+"
    (if Str.mem c _ALWAYS_SAFE || Str.mem c " "
     then String c "" else percent c)
  = plus_byte c.
Proof. each_byte c; reflexivity. Qed.

Lemma byte_unquote c (t : string) :
  unquote (Str.replace "+" " " (plus_byte c) +:+ t) = String c (unquote t).
Proof. each_byte c; reflexivity. Qed.

Lemma byte_no_amp c : Str.mem "&" (plus_byte c) = false.
Proof. each_byte c; reflexivity. Qed.

Lemma byte_no_eq c : Str.mem "=" (plus_byte c) = false.
Proof. each_byte c; reflexivity. Qed.

Lemma quote_plain s :
  Str.mem " " s = false → quote_from_bytes "" s = plus_bytes s.
Proof.
  induction s as [|c s IH]; [done |].
  intros Hmem. cbn [Str.mem] in Hmem.
  apply orb_false_elim in Hmem as [Hc Hs]. cbn [quote_from_bytes plus_bytes].
  by rewrite (byte_plain c Hc), (IH Hs).
Qed.

Lemma quote_space s :
  Str.replace " " "+" (quote_from_bytes " " s) = plus_bytes s.
Proof.
  induction s as [|c s IH]; [done |].
  cbn [quote_from_bytes plus_bytes].
  by rewrite StrFacts.replace_app, byte_space, IH.
Qed.

Lemma quote_plus_bytes s : quote_plus s = plus_bytes s.
Proof.
  unfold quote_plus, quote. destruct (Str.mem " " s) eqn:Hs; simpl.
  - apply quote_space.
  - by apply quote_plain.
Qed.

Lemma unquote_plus_bytes s : unquote_plus (plus_bytes s) = s.
Proof.
  unfold unquote_plus. induction s as [|c s IH]; [done |].
  cbn [plus_bytes].
  by rewrite StrFacts.replace_app, byte_unquote, IH.
Qed.

Lemma unquote_quote_plus s : unquote_plus (quote_plus s) = s.
Proof. rewrite quote_plus_bytes. apply unquote_plus_bytes. Qed.

Lemma quote_plus_no_amp s : Str.mem "&" (quote_plus s) = false.
Proof.
  rewrite quote_plus_bytes. induction s as [|c s IH]; [done |].
  cbn [plus_bytes]. by rewrite StrFacts.mem_app, byte_no_amp, IH.
Qed.

Lemma quote_plus_no_eq s : Str.mem "=" (quote_plus s) = false.
Proof.
  rewrite quote_plus_bytes. induction s as [|c s IH]; [done |].
  cbn [plus_bytes]. by rewrite StrFacts.mem_app, byte_no_eq, IH.
Qed.

End Quote.

(** ** [str] of an integer and [urlencode] *)

Lemma decimal_inv z : int_of_str (decimal z) = Some z.
Proof.
  unfold int_of_str, decimal. rewrite NilZero.isi.
  - simpl. by rewrite DecimalZ.of_to.
  - destruct z as [|p|p]; simpl; try discriminate.
    intros [= Hp]. by apply DecimalPos.Unsigned.to_uint_nonnil in Hp.
  - destruct z as [|p|p]; simpl; try discriminate.
    intros [= Hp]. by apply DecimalPos.Unsigned.to_uint_nonnil in Hp.
Qed.

Lemma str_of_int_Ok z :
  (digits z ≤ max_str_digits)%nat → str_of_int z = Ok (decimal z).
Proof.
  intros Hle. unfold str_of_int.
  by destruct (Nat.ltb_spec max_str_digits (digits z)); [lia |].
Qed.

Lemma str_of_int_Err z :
  (max_str_digits < digits z)%nat → ∃ msg, str_of_int z = Err (ValueError msg).
Proof.
  intros Hlt. unfold str_of_int.
  destruct (Nat.ltb_spec max_str_digits (digits z)); [by eexists | lia].
Qed.

(** The numeral of a positive integer has one digit more when the integer is
    multiplied by ten, so that [10 ^ k] has [k + 1] digits. *)
Lemma length_string_of_uint d :
  String.length (NilEmpty.string_of_uint d) = Decimal.nb_digits d.
Proof. induction d; simpl; congruence. Qed.

Lemma digits_pos p :
  digits (Z.pos p) = Decimal.nb_digits (Pos.to_little_uint p).
Proof.
  unfold digits, decimal.
  change (Z.to_int (Z.abs (Z.pos p))) with (Decimal.Pos (Pos.to_uint p)).
  cbn [NilZero.string_of_int].
  pose proof (DecimalPos.Unsigned.to_uint_nonnil p) as Hnil.
  rewrite <- (DecimalFacts.nb_digits_rev (Pos.to_little_uint p)).
  fold (Pos.to_uint p). rewrite <- length_string_of_uint.
  by destruct (Pos.to_uint p).
Qed.

Lemma digits_tenfold p : digits (Z.pos (10 * p)) = S (digits (Z.pos p)).
Proof.
  rewrite !digits_pos.
  pose proof (DecimalPos.Unsigned.to_ldec_tenfold p) as Hten.
  change (Pos.to_little_uint (10 * p) = Decimal.D0 (Pos.to_little_uint p))
    in Hten.
  by rewrite Hten.
Qed.

Lemma digits_pow10 (k : nat) : digits (10 ^ Z.of_nat k) = S k.
Proof.
  induction k as [|k IH]; [done |].
  rewrite Nat2Z.inj_succ, Z.pow_succ_r by lia.
  assert (Hpos : 0 < 10 ^ Z.of_nat k) by (apply Z.pow_pos_nonneg; lia).
  destruct (10 ^ Z.of_nat k) as [|p|p] eqn:Hp; [lia | | lia].
  change (10 * Z.pos p) with (Z.pos (10 * p)). by rewrite digits_tenfold, IH.
Qed.

Section Urlencode.
Context `{!Externals}.

Lemma field_no_amp kv : Str.mem "&" (field kv) = false.
Proof.
  unfold field. rewrite !StrFacts.mem_app, !Quote.quote_plus_no_amp. done.
Qed.

Lemma field_decode kv :
  (if Str.is_empty (field kv) then []
   else let '(name, _, value) := Str.partition "=" (field kv) in
        [(unquote_plus name, unquote_plus value)])
  = [kv].
Proof.
  destruct kv as [k v]. unfold field. cbn [fst snd].
  change ("=" +:+ quote_plus v) with (String "="%char (quote_plus v)).
  rewrite StrFacts.partition_sep by apply Quote.quote_plus_no_eq.
  rewrite !Quote.unquote_quote_plus.
  by destruct (quote_plus k).
Qed.

(** Decoding the joined fields gives back every name with its value, in
    order. *)
Lemma fields_decode pairs : parse_qsl (Str.join "&" (map field pairs)) = pairs.
Proof.
  unfold parse_qsl. destruct pairs as [|kv pairs]; [done |].
  change (map field (kv :: pairs)) with (field kv :: map field pairs).
  rewrite StrFacts.split_join.
  - change (field kv :: map field pairs) with (map field (kv :: pairs)).
    induction (kv :: pairs) as [|x l IH]; [done |].
    cbn [map flat_map]. by rewrite field_decode, IH.
  - change (field kv :: map field pairs) with (map field (kv :: pairs)).
    apply List.Forall_forall. intros f [x [<- _]]%in_map_iff.
    apply field_no_amp.
Qed.

(** The joined fields are the form encoding of the pairs. *)
Lemma fields_form pairs :
  Str.join "&" (map field pairs) = form_urlencoded pairs.
Proof.
  unfold form_urlencoded. f_equal. apply map_ext. intros kv.
  unfold field. by rewrite !Quote.quote_plus_bytes.
Qed.

Lemma form_urlencoded_decode pairs : parse_qsl (form_urlencoded pairs) = pairs.
Proof. rewrite <- fields_form. apply fields_decode. Qed.

(** [urlencode] on the arguments of [request]: only the conversion of the
    page can raise. *)
Lemma urlencode_args st query pageno :
  urlencode (args_of st query pageno)
  = page ← str pageno;
    mret (form_urlencoded
            [("q", query); ("page", page); ("type_", lemmy_type st)]).
Proof.
  unfold urlencode, args_of. cbn [mapM str].
  destruct (str pageno) as [page|e]; [| done].
  cbv [mbind result_bind mret result_ret].
  by rewrite <- fields_form.
Qed.

End Urlencode.

(** ** Loops over the elements of the source array *)

Section Loops.
Context {A : Type} (f : pyval → result A).

Lemma for_append_mapM items results :
  for_append f items results = rs ← mapM f items; mret (results ++ rs).
Proof.
  revert results. induction items as [|x items IH]; intros results; simpl.
  - by rewrite app_nil_r.
  - destruct (f x) as [r|e]; simpl; [| done].
    rewrite IH. destruct (mapM f items) as [rs|e]; simpl; [| done].
    by rewrite <- app_assoc.
Qed.

Lemma for_append_nil items : for_append f items [] = mapM f items.
Proof. rewrite for_append_mapM. by destruct (mapM f items). Qed.

Lemma mapM_Ok items rs :
  mapM f items = Ok rs ↔ Forall2 (λ x r, f x = Ok r) items rs.
Proof.
  revert rs. induction items as [|x items IH]; intros rs; simpl.
  - split; [intros [= <-]; constructor | by inversion 1].
  - split.
    + destruct (f x) as [r|e] eqn:Hx; simpl; [| done].
      destruct (mapM f items) as [rs'|e] eqn:Hrest; simpl; [| done].
      intros [= <-]. constructor; [done | by apply IH].
    + inversion 1 as [|? r ? rs' Hx Hrest]; subst.
      apply IH in Hrest. by rewrite Hx, Hrest.
Qed.

Lemma mapM_total items :
  Forall (λ x, ∃ r, f x = Ok r) items → ∃ rs, mapM f items = Ok rs.
Proof.
  induction 1 as [|x items [r Hx] _ [rs Hrest]]; simpl; [by eexists |].
  rewrite Hx, Hrest. by eexists.
Qed.

(** The loop stops at the first element whose body raises. *)
Lemma mapM_first_Err before x after rs e :
  mapM f before = Ok rs → f x = Err e →
  mapM f (before ++ x :: after) = Err e.
Proof.
  revert rs. induction before as [|y before IH]; intros rs; simpl.
  - intros _ ->. done.
  - destruct (f y) as [r|e'] eqn:Hy; simpl; [| done].
    destruct (mapM f before) as [rs'|e'] eqn:Hb; simpl; [| done].
    intros _ Hx. by rewrite (IH rs') by done.
Qed.

Lemma mapM_Err items e :
  mapM f items = Err e → ∃ x, x ∈ items ∧ f x = Err e.
Proof.
  induction items as [|x items IH]; simpl; [done |].
  destruct (f x) as [r|e'] eqn:Hx; simpl.
  - destruct (mapM f items) as [rs|e'] eqn:Hrest; simpl; [done |].
    intros [= ->]. destruct IH as (y & Hy & Hfy); [done |].
    exists y. split; [by apply list_elem_of_further | done].
  - intros [= ->]. exists x. split; [apply list_elem_of_here | done].
Qed.

Lemma mapM_some_Err items x e :
  x ∈ items → f x = Err e → ∃ e', mapM f items = Err e'.
Proof.
  intros Hin Hx. destruct (mapM f items) as [rs|e'] eqn:Hm; [| by eexists].
  apply mapM_Ok in Hm.
  apply list_elem_of_lookup in Hin as [i Hi].
  destruct (Forall2_lookup_l _ _ _ _ _ Hm Hi) as (r & _ & Hr). congruence.
Qed.

End Loops.

(** ** The four extraction functions against the table *)

Lemma dispatch_table_kinds kind :
  kind ∈ kinds ↔ is_Some (dispatch_table kind).
Proof.
  unfold dispatch_table, kinds. split.
  - intros Hk. repeat (apply elem_of_cons in Hk as [-> | Hk]); try by eexists.
    by apply elem_of_nil in Hk.
  - repeat (case String.eqb_spec; [intros ->; set_solver |]).
    intros _ _ _ _ [? [=]].
Qed.

Section EngineFacts.
Context `{!Externals}.

Lemma response_table st resp r json :
  dispatch_table (lemmy_type st) = Some r →
  Response_json resp = Ok json →
  response resp st = (parse r json, st).
Proof.
  unfold response, dispatch_table, parse. intros Hr ->.
  cbv [mbind py_bind lift global]. revert Hr.
  repeat (case String.eqb_spec; intros _;
    [intros [= <-]; f_equal;
     cbv [_get_communities _get_users _get_posts _get_comments
          source_array];
     destruct (getitem json _) as [array|]; simpl; [| done];
     destruct (iter array) as [items|]; simpl; [| done];
     apply for_append_nil |]).
  done.
Qed.

Lemma response_unsupported st resp json :
  lemmy_type st ∉ kinds →
  Response_json resp = Ok json →
  response resp st
  = (Err (ValueError ("Unsupported lemmy type: " +:+ lemmy_type st)), st).
Proof.
  unfold response, kinds. intros Hk ->.
  cbv [mbind py_bind lift global raise].
  repeat (case String.eqb_spec; [intros Heq; rewrite Heq in Hk; set_solver |]).
  done.
Qed.

(** [response] never changes the interpreter state. *)
Lemma response_state st resp : (response resp st).2 = st.
Proof.
  unfold response. cbv [mbind py_bind lift global raise].
  destruct (Response_json resp); [| done].
  by repeat case String.eqb_spec.
Qed.

Lemma row_item_emits r e it : row_item r e = Ok it ↔ emits r e it.
Proof.
  unfold row_item, emits, at_path, content_source, render_excerpt.
  destruct it as [u t c]. cbn [url title content].
  destruct (getitem e (url_field r).1) as [o1|]; simpl;
    [| split; [done | by intros [? _]]].
  destruct (getitem o1 (url_field r).2) as [u'|]; simpl;
    [| split; [done | by intros [? _]]].
  destruct (getitem e (title_field r).1) as [o2|]; simpl;
    [| split; [done | by intros (_ & ? & _)]].
  destruct (getitem o2 (title_field r).2) as [t'|]; simpl;
    [| split; [done | by intros (_ & ? & _)]].
  destruct (getitem e (content_field r).1) as [o3|]; simpl;
    [| split; [done | by intros (_ & _ & ? & ? & _)]].
  destruct (content_default r) as [dflt|], o3; simpl;
    try (split; [done | by intros (_ & _ & ? & ? & _)]);
    (destruct (dict_lookup _ _) as [v|]; simpl;
     [destruct v |]; simpl;
     try (split; [done | by intros (_ & _ & ? & ? & _)]));
    (split;
     [intros [= <- <- <-]; eauto
     |intros ([= <-] & [= <-] & text & [= <-] & ->); done]).
Qed.

Lemma emits_functional r e it1 it2 : emits r e it1 → emits r e it2 → it1 = it2.
Proof. rewrite <- !row_item_emits. congruence. Qed.

Lemma parse_Ok r json elems items :
  getitem json (source_array r) = Ok (PList elems) →
  parse r json = Ok items ↔ Forall2 (emits r) elems items.
Proof.
  unfold parse. intros ->. simpl. rewrite mapM_Ok.
  split; intros Hall; (eapply Forall2_impl; [exact Hall |]);
    intros e it; by apply row_item_emits.
Qed.

Lemma parse_total r json elems :
  getitem json (source_array r) = Ok (PList elems) →
  Forall (λ e, ∃ it, emits r e it) elems →
  ∃ items, parse r json = Ok items.
Proof.
  unfold parse. intros -> Hwf. simpl. apply mapM_total.
  eapply Forall_impl; [exact Hwf |].
  intros e [it Hit]. exists it. by apply row_item_emits.
Qed.

End EngineFacts.

(** ** Claims about [response] *)

Section ResponseClaims.
Context `{!Externals}.

Lemma row_item_Err r e x : row_item r e = Err x → MalformedResponse x.
Proof.
  unfold row_item, getitem, dict_get, _format_content.
  repeat (case_match; simpl; try done); by intros [= <-].
Qed.

(** C1.  For each of the four kinds and every response whose JSON holds the
    kind's source array, [response] returns a list of items exactly when
    that list pairs off with the array, element by element, each item
    having the url, title and rendered content that the kind's line of the
    dispatch table names; and it does return one, of the array's length,
    when every element has those fields. *)
Theorem response_follows_table st resp r json elems :
  lemmy_type st ∈ kinds →
  dispatch_table (lemmy_type st) = Some r →
  Response_json resp = Ok json →
  getitem json (source_array r) = Ok (PList elems) →
  (∀ items,
     response resp st = (Ok items, st) ↔ Forall2 (emits r) elems items) ∧
  (Forall (λ e, ∃ it, emits r e it) elems →
   ∃ items, response resp st = (Ok items, st) ∧
            length items = length elems).
Proof.
  intros _ Hr Hjson Harr. rewrite (response_table _ _ _ _ Hr Hjson). split.
  - intros items. rewrite <- (parse_Ok r json elems items Harr).
    split; [by intros [= ->] | by intros ->].
  - intros Hwf. destruct (parse_total r json elems Harr Hwf) as [items Hitems].
    exists items. split; [by rewrite Hitems |].
    apply (parse_Ok r json elems items Harr) in Hitems.
    symmetry. by eapply Forall2_length.
Qed.

(** C4.  For the Comments kind, the title of every returned item is the
    [name] of the element's [post] sub-object; an element with post name
    "Thread X" and comment content "hi" gives an item titled "Thread X". *)
Theorem comments_title_from_post st resp json elems :
  lemmy_type st = "Comments" →
  Response_json resp = Ok json →
  getitem json "comments" = Ok (PList elems) →
  Forall (λ e, is_Some (at_path e ("comment", "ap_id")) ∧
               is_Some (at_path e ("post", "name")) ∧
               ∃ text, at_path e ("comment", "content") = Some (PStr text))
         elems →
  ∃ items,
    response resp st = (Ok items, st) ∧
    Forall2 (λ e it, at_path e ("post", "name") = Some (title it))
            elems items ∧
    ∀ i e u, elems !! i = Some e →
      at_path e ("comment", "ap_id") = Some u →
      at_path e ("post", "name") = Some (PStr "Thread X") →
      at_path e ("comment", "content") = Some (PStr "hi") →
      items !! i = Some {| url := u; title := PStr "Thread X";
                           content := render_excerpt "hi" |}.
Proof.
  intros Hkind Hjson Harr Hwf.
  set (r := Row "comments" ("comment", "ap_id") ("post", "name")
                ("comment", "content") None).
  assert (Hr : dispatch_table (lemmy_type st) = Some r) by by rewrite Hkind.
  assert (Hsrc : ∀ e v, at_path e ("comment", "content") = Some v →
                        content_source r e = Some v).
  { intros e v. unfold at_path, content_source, getitem. simpl.
    repeat (case_match; simpl; try done); congruence. }
  rewrite (response_table _ _ _ _ Hr Hjson).
  destruct (parse_total r json elems Harr) as [items Hitems].
  { eapply Forall_impl; [exact Hwf |].
    intros e ([u Hu] & [t Ht] & text & Htext).
    exists {| url := u; title := t; content := render_excerpt text |}.
    repeat split; [done | done |]. exists text. split; [by apply Hsrc | done]. }
  exists items. split; [by rewrite Hitems |].
  apply (parse_Ok r json elems items Harr) in Hitems. split.
  - eapply Forall2_impl; [exact Hitems |]. by intros e it (_ & Ht & _).
  - intros i e u Hi Hu Ht Hc.
    destruct (Forall2_lookup_l _ _ _ _ _ Hitems Hi) as (it & -> & Hit).
    f_equal. apply (emits_functional r e); [done |].
    repeat split; [done | done |]. exists "hi". split; [by apply Hsrc | done].
Qed.

(** C5.  For Communities, Users and Posts, an element whose sub-object has
    no description, bio or body does not make [response] fail: the items
    are returned, and the item of such an element has the rendering of the
    empty string as its content. *)
Theorem missing_optional_content_defaults st resp r json elems :
  lemmy_type st ∈ ["Communities"; "Users"; "Posts"] →
  dispatch_table (lemmy_type st) = Some r →
  Response_json resp = Ok json →
  getitem json (source_array r) = Ok (PList elems) →
  Forall (λ e, is_Some (at_path e (url_field r)) ∧
               is_Some (at_path e (title_field r)) ∧
               (content_absent r e ∨
                ∃ text, at_path e (content_field r) = Some (PStr text)))
         elems →
  ∃ items,
    response resp st = (Ok items, st) ∧
    ∀ i e, elems !! i = Some e → content_absent r e →
      ∃ it, items !! i = Some it ∧ content it = render_excerpt "".
Proof.
  intros Hkind Hr Hjson Harr Hwf.
  assert (Hdflt : content_default r = Some "").
  { revert Hr. repeat (apply elem_of_cons in Hkind as [-> | Hkind]);
      [by intros [= <-] .. | by apply elem_of_nil in Hkind]. }
  assert (Habs : ∀ e, content_absent r e →
                      content_source r e = Some (PStr "")).
  { intros e (d & Hd & Hnone). unfold content_source.
    by rewrite Hd, Hnone, Hdflt. }
  assert (Hsrc : ∀ e v, at_path e (content_field r) = Some v →
                        content_source r e = Some v).
  { intros e v. unfold at_path, content_source, getitem.
    repeat (case_match; simpl; try done); congruence. }
  rewrite (response_table _ _ _ _ Hr Hjson).
  destruct (parse_total r json elems Harr) as [items Hitems].
  { eapply Forall_impl; [exact Hwf |].
    intros e ([u Hu] & [t Ht] & [Hnone | [text Htext]]).
    - exists {| url := u; title := t; content := render_excerpt "" |}.
      repeat split; [done | done |]. exists "". split; [by apply Habs | done].
    - exists {| url := u; title := t; content := render_excerpt text |}.
      repeat split; [done | done |].
      exists text. split; [by apply Hsrc | done]. }
  exists items. split; [by rewrite Hitems |].
  apply (parse_Ok r json elems items Harr) in Hitems.
  intros i e Hi Hnone.
  destruct (Forall2_lookup_l _ _ _ _ _ Hitems Hi) as (it & Hit & Hem).
  exists it. split; [done |].
  destruct Hem as (_ & _ & text & Htext & ->).
  rewrite (Habs e Hnone) in Htext. by injection Htext as <-.
Qed.

(** C6.  For the Comments kind, an element whose [comment] sub-object has no
    [content] makes [response] fail with a lookup error instead of
    defaulting, and the state is left as it was; when the elements before
    it are complete and the element has its url and title, the error that
    reaches the caller is the [KeyError] of the failed lookup itself. *)
Theorem comments_missing_content_raises st resp json elems e d :
  lemmy_type st = "Comments" →
  Response_json resp = Ok json →
  getitem json "comments" = Ok (PList elems) →
  e ∈ elems →
  getitem e "comment" = Ok (PDict d) →
  dict_lookup "content" d = None →
  (∃ err, response resp st = (Err err, st) ∧ MalformedResponse err) ∧
  (∀ before after,
     elems = before ++ e :: after →
     Forall (λ e', is_Some (at_path e' ("comment", "ap_id")) ∧
                   is_Some (at_path e' ("post", "name")) ∧
                   ∃ text,
                     at_path e' ("comment", "content") = Some (PStr text))
            before →
     is_Some (at_path e ("comment", "ap_id")) →
     is_Some (at_path e ("post", "name")) →
     getitem (PDict d) "content" = Err (KeyError "content") ∧
     response resp st = (Err (KeyError "content"), st)).
Proof.
  intros Hkind Hjson Harr Hin Hd Hnone.
  set (r := Row "comments" ("comment", "ap_id") ("post", "name")
                ("comment", "content") None).
  assert (Hr : dispatch_table (lemmy_type st) = Some r) by by rewrite Hkind.
  rewrite (response_table _ _ _ _ Hr Hjson). unfold parse.
  change (source_array r) with "comments". rewrite Harr. simpl.
  assert (He : ∃ x, row_item r e = Err x).
  { unfold row_item, _format_content. simpl. rewrite Hd. simpl.
    rewrite Hnone. simpl.
    destruct (dict_lookup "ap_id" d); simpl; [| eauto].
    destruct (getitem e "post") as [o|]; simpl; [| eauto].
    destruct (getitem o "name"); simpl; eauto. }
  split.
  - destruct He as [x Hx].
    destruct (mapM_some_Err (row_item r) elems e x Hin Hx) as [err Herr].
    exists err. split; [by rewrite Herr |].
    apply mapM_Err in Herr as (y & _ & Hy). by eapply row_item_Err.
  - intros before after -> Hwf [u Hu] [t Ht].
    split; [by simpl; rewrite Hnone |].
    destruct (mapM_total (row_item r) before) as [rs Hrs].
    { eapply Forall_impl; [exact Hwf |].
      intros e' ([u' Hu'] & [t' Ht'] & text & Htext).
      exists {| url := u'; title := t'; content := render_excerpt text |}.
      apply row_item_emits. repeat split; [done | done |].
      exists text. split; [| done].
      revert Htext. unfold at_path, content_source, getitem. simpl.
      repeat (case_match; simpl; try done); congruence. }
    rewrite (mapM_first_Err (row_item r) before e after rs (KeyError "content"));
      [done | done |].
    revert Hu Ht. unfold row_item, at_path. simpl. rewrite Hd. simpl.
    rewrite Hnone. simpl.
    destruct (dict_lookup "ap_id" d); simpl; [intros _ | done].
    destruct (getitem e "post") as [o|]; simpl; [| done].
    by destruct (getitem o "name").
Qed.

(** C7.  For each of the four kinds and every response whose elements all
    have their fields, the items come in the order of the source array: the
    list has the array's length and its i-th item is the one the table
    describes for the i-th element. *)
Theorem response_preserves_order st resp r json elems :
  lemmy_type st ∈ kinds →
  dispatch_table (lemmy_type st) = Some r →
  Response_json resp = Ok json →
  getitem json (source_array r) = Ok (PList elems) →
  Forall (λ e, ∃ it, emits r e it) elems →
  ∃ items,
    response resp st = (Ok items, st) ∧
    length items = length elems ∧
    ∀ i e, elems !! i = Some e →
      ∃ it, items !! i = Some it ∧ emits r e it ∧
            ∀ it', emits r e it' → it' = it.
Proof.
  intros _ Hr Hjson Harr Hwf. rewrite (response_table _ _ _ _ Hr Hjson).
  destruct (parse_total r json elems Harr Hwf) as [items Hitems].
  exists items. split; [by rewrite Hitems |].
  apply (parse_Ok r json elems items Harr) in Hitems. split.
  - symmetry. by eapply Forall2_length.
  - intros i e Hi.
    destruct (Forall2_lookup_l _ _ _ _ _ Hitems Hi) as (it & Hit & Hem).
    exists it. split; [done | split; [done |]].
    intros it' Hit'. by apply (emits_functional r e).
Qed.

(** C8.  [response] is deterministic and keeps no state: a call returns the
    interpreter state it was given, and a later call on the same response,
    from any state with the same configured kind, has the same outcome. *)
Theorem response_deterministic resp st st' :
  lemmy_type st' = lemmy_type st →
  response resp st = ((response resp st).1, st) ∧
  (response resp st').1 = (response resp st).1.
Proof.
  intros Hkind. split.
  - rewrite <- (response_state st resp) at 3. by destruct (response resp st).
  - unfold response. cbv [mbind py_bind lift global raise].
    rewrite Hkind. destruct (Response_json resp); [| done].
    by repeat case String.eqb_spec.
Qed.

(** C10.  For each of the four kinds, two responses whose JSON agrees on
    the kind's source array have the same outcome, whatever else their
    top-level objects hold or lack. *)
Theorem response_depends_on_source_array st resp1 resp2 r json1 json2 :
  lemmy_type st ∈ kinds →
  dispatch_table (lemmy_type st) = Some r →
  Response_json resp1 = Ok json1 →
  Response_json resp2 = Ok json2 →
  getitem json1 (source_array r) = getitem json2 (source_array r) →
  response resp1 st = response resp2 st.
Proof.
  intros _ Hr H1 H2 Hsame.
  rewrite (response_table _ _ _ _ Hr H1), (response_table _ _ _ _ Hr H2).
  unfold parse. by rewrite Hsame.
Qed.

End ResponseClaims.

(** ** The form encoding and the stored URL *)

Lemma all_chars_app p (a b : string) :
  all_chars p (a +:+ b) = all_chars p a && all_chars p b.
Proof.
  induction a as [|c a IH]; simpl; [done |]. by rewrite IH, andb_assoc.
Qed.

Lemma plus_byte_value c : all_chars value_char (plus_byte c) = true.
Proof. Quote.each_byte c; reflexivity. Qed.

Lemma plus_bytes_value s : all_chars value_char (plus_bytes s) = true.
Proof.
  induction s as [|c s IH]; [done |].
  cbn [plus_bytes]. by rewrite all_chars_app, plus_byte_value, IH.
Qed.

Lemma value_query_char s :
  all_chars value_char s = true → all_chars query_char s = true.
Proof.
  induction s as [|c s IH]; [done |]. cbn [all_chars].
  intros [Hc Hs]%andb_true_iff. rewrite (IH Hs), andb_true_r.
  revert Hc. unfold value_char, query_char.
  intros [-> | Hc]%orb_true_iff; [done |].
  apply orb_true_iff. right. revert Hc. cbn [Str.mem].
  intros [-> | [-> | Hc]%orb_true_iff]%orb_true_iff; [done | | done].
  by rewrite orb_true_r.
Qed.

Lemma form_urlencoded_query pairs :
  all_chars query_char (form_urlencoded pairs) = true.
Proof.
  unfold form_urlencoded.
  set (f := λ kv : string * string,
              plus_bytes kv.1 +:+ "=" +:+ plus_bytes kv.2).
  assert (Hfield : ∀ kv, all_chars query_char (f kv) = true).
  { intros kv. unfold f. rewrite !all_chars_app.
    by rewrite (value_query_char (plus_bytes kv.1)),
               (value_query_char (plus_bytes kv.2)) by apply plus_bytes_value. }
  induction pairs as [|kv pairs IH]; [done |].
  destruct pairs as [|kv' pairs]; [apply Hfield |].
  change (Str.join "&" (map f (kv :: kv' :: pairs)))
    with (f kv +:+ "&" +:+ Str.join "&" (map f (kv' :: pairs))).
  rewrite all_chars_app, (Hfield kv), all_chars_app. by rewrite IH.
Qed.

Lemma stored_url (st : interp) (params : loc) (d : gmap string pyval) u :
  (heap (set_heap (<[params := <["url" := u]> d]> (heap st)) st) !! params)
    ≫= (.!! "url")
  = Some u.
Proof. simpl. rewrite lookup_insert_eq. simpl. by rewrite lookup_insert_eq. Qed.

(** ** Claims about [request] *)

Section RequestClaims.
Context `{!Externals}.

Lemma request_returns st query params d pageno page :
  heap st !! params = Some d →
  d !! "pageno" = Some pageno →
  str pageno = Ok page →
  request query params st
  = (Ok params,
     set_heap
       (<[params :=
            <["url" :=
                PStr (base_url st +:+ "api/v3/search?" +:+
                      form_urlencoded [("q", query); ("page", page);
                                       ("type_", lemmy_type st)])]> d]>
          (heap st)) st).
Proof.
  intros Hd Hpage Hstr. unfold request, load_item, store_item.
  cbv [mbind py_bind mret py_ret global lift]. rewrite Hd, Hpage.
  fold (args_of st query pageno). rewrite urlencode_args, Hstr.
  cbv [mbind result_bind mret result_ret]. by rewrite Hd.
Qed.

Lemma request_raises st query params d :
  heap st !! params = Some d →
  d !! "pageno" = None →
  request query params st = (Err (KeyError "pageno"), st).
Proof.
  intros Hd Hpage. unfold request, load_item.
  cbv [mbind py_bind]. by rewrite Hd, Hpage.
Qed.

Lemma request_str_raises st query params d pageno e :
  heap st !! params = Some d →
  d !! "pageno" = Some pageno →
  str pageno = Err e →
  request query params st = (Err e, st).
Proof.
  intros Hd Hpage Hstr. unfold request, load_item.
  cbv [mbind py_bind mret py_ret global lift]. rewrite Hd, Hpage.
  fold (args_of st query pageno). by rewrite urlencode_args, Hstr.
Qed.

(** C2, as the code has it.  For every query string (the empty one
    included), each of the four kinds and every page number from 1 on whose
    numeral has at most 4300 digits, [request] stores under ['url'] the text
    [{base_url}api/v3/search], a question mark and the form encoding of [q],
    [page] and [type_] - the query and the kind escaped byte by byte, the
    page as its decimal numeral - which decodes to exactly these three
    parameters; any other call with the same query, page, base url and kind
    stores the same URL.  For a page number of more digits the conversion to
    [str] raises a [ValueError], and nothing is stored. *)
Theorem request_url_decodes st query params d n :
  lemmy_type st ∈ kinds →
  1 ≤ n →
  heap st !! params = Some d →
  d !! "pageno" = Some (PInt n) →
  ((digits n ≤ max_str_digits)%nat →
   ∃ qs,
     request query params st
     = (Ok params,
        set_heap
          (<[params :=
               <["url" := PStr (base_url st +:+ "api/v3/search" +:+
                                "?" +:+ qs)]> d]> (heap st)) st) ∧
     qs = form_urlencoded
            [("q", query); ("page", decimal n); ("type_", lemmy_type st)] ∧
     all_chars query_char qs = true ∧
     parse_qsl qs
     = [("q", query); ("page", decimal n); ("type_", lemmy_type st)] ∧
     int_of_str (decimal n) = Some n ∧
     ∀ st2 params2 d2,
       base_url st2 = base_url st →
       lemmy_type st2 = lemmy_type st →
       heap st2 !! params2 = Some d2 →
       d2 !! "pageno" = Some (PInt n) →
       (heap (request query params2 st2).2 !! params2) ≫= (.!! "url")
       = Some (PStr (base_url st +:+ "api/v3/search" +:+ "?" +:+ qs))) ∧
  ((max_str_digits < digits n)%nat →
   ∃ msg, request query params st = (Err (ValueError msg), st)).
Proof.
  intros _ _ Hd Hpage. split.
  - intros Hstr%str_of_int_Ok. eexists. split.
    + exact (request_returns st query params d (PInt n) _ Hd Hpage Hstr).
    + split; [done |]. split; [apply form_urlencoded_query |].
      split; [apply form_urlencoded_decode |].
      split; [apply decimal_inv |].
      intros st2 params2 d2 Hbase Hkind Hd2 Hpage2.
      rewrite (request_returns st2 query params2 d2 (PInt n) _ Hd2 Hpage2 Hstr).
      cbn [snd]. by rewrite stored_url, Hbase, Hkind.
  - intros [msg Hstr]%str_of_int_Err. exists msg.
    exact (request_str_raises st query params d (PInt n) _ Hd Hpage Hstr).
Qed.

(** C3, as the code has it.  With a kind outside the four, [response]
    raises the unsupported-kind [ValueError] for every response whose body
    is JSON, whatever it holds, and leaves the state as it was; [request]
    does not look at the kind and builds the URL as for any other, with
    [type_] set to that kind. *)
Theorem unsupported_kind_raised_by_response st :
  lemmy_type st ∉ kinds →
  (∀ resp json,
     Response_json resp = Ok json →
     response resp st
     = (Err (ValueError ("Unsupported lemmy type: " +:+ lemmy_type st)),
        st)) ∧
  (∀ query params d pageno page,
     heap st !! params = Some d →
     d !! "pageno" = Some pageno →
     str pageno = Ok page →
     ∃ st' qs,
       request query params st = (Ok params, st') ∧
       (heap st' !! params) ≫= (.!! "url")
       = Some (PStr (base_url st +:+ "api/v3/search?" +:+ qs)) ∧
       urlencode (args_of st query pageno) = Ok qs ∧
       parse_qsl qs
       = [("q", query); ("page", page); ("type_", lemmy_type st)]).
Proof.
  intros Hkind. split.
  - intros resp json Hjson. by apply (response_unsupported st resp json).
  - intros query params d pageno page Hd Hpage Hstr. eexists _, _.
    split; [exact (request_returns _ _ _ _ _ _ Hd Hpage Hstr) |].
    split; [apply stored_url |].
    split; [by rewrite urlencode_args, Hstr |].
    apply form_urlencoded_decode.
Qed.

(** C9.  [request] changes its [params] dictionary at the key ['url'] only:
    after the call every other key of [params] maps to what it did before
    and every other dictionary is untouched; the call raises only when
    ['pageno'] is missing or cannot be converted by [urlencode], changing
    nothing then, and otherwise returns [params] itself, with the search URL
    under ['url']. *)
Theorem request_frame st query params d :
  heap st !! params = Some d →
  ∃ d',
    heap (request query params st).2 !! params = Some d' ∧
    (∀ k, k ≠ "url" → d' !! k = d !! k) ∧
    (∀ other, other ≠ params →
       heap (request query params st).2 !! other = heap st !! other) ∧
    (d !! "pageno" = None →
       request query params st = (Err (KeyError "pageno"), st)) ∧
    (∀ pageno e, d !! "pageno" = Some pageno →
       urlencode (args_of st query pageno) = Err e →
       request query params st = (Err e, st)) ∧
    (∀ pageno encoded, d !! "pageno" = Some pageno →
       urlencode (args_of st query pageno) = Ok encoded →
       (request query params st).1 = Ok params ∧
       d' !! "url"
       = Some (PStr (base_url st +:+ "api/v3/search?" +:+ encoded))).
Proof.
  intros Hd. destruct (d !! "pageno") as [pageno|] eqn:Hpage.
  - destruct (str pageno) as [page|e] eqn:Hstr.
    + rewrite (request_returns _ _ _ _ _ _ Hd Hpage Hstr).
      cbn [fst snd heap set_heap].
      eexists. split; [apply lookup_insert_eq |].
      split; [intros k Hk; by apply lookup_insert_ne |].
      split; [intros other Ho; by apply lookup_insert_ne |].
      split; [done |]. split.
      * intros pageno' e [= <-]. rewrite urlencode_args, Hstr.
        cbv [mbind result_bind]. done.
      * intros pageno' encoded [= <-]. rewrite urlencode_args, Hstr.
        cbv [mbind result_bind mret result_ret]. intros [= <-].
        split; [done | apply lookup_insert_eq].
    + rewrite (request_str_raises _ _ _ _ _ _ Hd Hpage Hstr).
      cbn [fst snd]. exists d.
      split; [done |]. split; [done |]. split; [done |]. split; [done |].
      split.
      * intros pageno' e' [= <-]. rewrite urlencode_args, Hstr.
        cbv [mbind result_bind]. by intros [= <-].
      * intros pageno' encoded [= <-]. rewrite urlencode_args, Hstr.
        cbv [mbind result_bind]. done.
  - rewrite (request_raises _ _ _ _ Hd Hpage). cbn [fst snd].
    exists d.
    split; [done |]. split; [done |]. split; [done |]. split; [done |].
    split; intros ? ? [=].
Qed.

End RequestClaims.

(** ** The claims at concrete inputs *)

Section Instances.
Local Existing Instance plain.

Lemma kinds_Unknown : "Unknown" ∉ kinds.
Proof.
  unfold kinds. intros Hin.
  repeat (apply elem_of_cons in Hin as [[=] | Hin]).
  by apply elem_of_nil in Hin.
Qed.

(** Against C3 as stated: with the kind "Unknown", [request] raises nothing
    and builds the URL of the search, [type_=Unknown] included. *)
Lemma unknown_kind_request_succeeds :
  ("Unknown" ∉ kinds) ∧
  (request "lemmy" 1%nat (lemmy_ml "Unknown" 1)).1 = Ok 1%nat ∧
  (heap (request "lemmy" 1%nat (lemmy_ml "Unknown" 1)).2 !! 1%nat)
    ≫= (.!! "url")
  = Some (PStr "https://lemmy.ml/api/v3/search?q=lemmy&page=1&type_=Unknown") ∧
  ¬ ∃ msg, (request "lemmy" 1%nat (lemmy_ml "Unknown" 1)).1
           = Err (ValueError msg).
Proof.
  split; [exact kinds_Unknown |].
  split; [by vm_compute |]. split; [by vm_compute |].
  intros [msg Hmsg]. vm_compute in Hmsg. discriminate Hmsg.
Qed.

Lemma response_follows_table_witness :
  response (body "communities" [foo]) (lemmy_ml "Communities" 1)
  = (Ok [{| url := PStr "https://x/c/foo"; title := PStr "Foo";
            content := "" |}],
     lemmy_ml "Communities" 1).
Proof.
  destruct (response_follows_table
              (lemmy_ml "Communities" 1) (body "communities" [foo])
              (Row "communities" ("community", "actor_id")
                   ("community", "title") ("community", "description")
                   (Some ""))
              (PDict [("communities", PList [foo])]) [foo])
    as [Hiff _]; [repeat constructor | reflexivity .. |].
  apply Hiff. repeat constructor. by exists "".
Defined.

Lemma comments_title_from_post_witness :
  ∃ items,
    response (body "comments" [thread_x]) (lemmy_ml "Comments" 1)
    = (Ok items, lemmy_ml "Comments" 1) ∧
    items !! 0%nat
    = Some {| url := PStr "https://x/comment/1"; title := PStr "Thread X";
              content := "hi" |}.
Proof.
  destruct (comments_title_from_post
              (lemmy_ml "Comments" 1) (body "comments" [thread_x])
              (PDict [("comments", PList [thread_x])]) [thread_x])
    as (items & Hresp & _ & Hx); [reflexivity .. | |].
  - repeat constructor; by eexists.
  - exists items. split; [exact Hresp |].
    by apply (Hx 0%nat thread_x (PStr "https://x/comment/1")).
Defined.

Lemma missing_optional_content_defaults_witness :
  ∃ items,
    response (body "communities" [foo]) (lemmy_ml "Communities" 1)
    = (Ok items, lemmy_ml "Communities" 1) ∧
    ∃ it, items !! 0%nat = Some it ∧ content it = render_excerpt "".
Proof.
  destruct (missing_optional_content_defaults
              (lemmy_ml "Communities" 1) (body "communities" [foo])
              (Row "communities" ("community", "actor_id")
                   ("community", "title") ("community", "description")
                   (Some ""))
              (PDict [("communities", PList [foo])]) [foo])
    as (items & Hresp & Hx);
    [repeat constructor | reflexivity .. | |].
  - constructor; [| constructor]. split; [by eexists |].
    split; [by eexists |]. left. eexists. by split.
  - exists items. split; [exact Hresp |].
    apply (Hx 0%nat foo); [reflexivity |]. eexists. by split.
Defined.

Lemma comments_missing_content_raises_witness :
  response (body "comments" [thread_x; no_content]) (lemmy_ml "Comments" 1)
  = (Err (KeyError "content"), lemmy_ml "Comments" 1).
Proof.
  assert (Hin : no_content ∈ [thread_x; no_content]) by repeat constructor.
  destruct (comments_missing_content_raises
              (lemmy_ml "Comments" 1)
              (body "comments" [thread_x; no_content])
              (PDict [("comments", PList [thread_x; no_content])])
              [thread_x; no_content] no_content
              [("ap_id", PStr "https://x/comment/2")]
              eq_refl eq_refl eq_refl Hin eq_refl eq_refl)
    as [_ Hx].
  apply (Hx [thread_x] []); [reflexivity | | by eexists ..].
  repeat constructor; by eexists.
Defined.

Lemma response_preserves_order_witness :
  ∃ items,
    response (body "comments" [thread_x; thread_x; thread_x])
             (lemmy_ml "Comments" 1)
    = (Ok items, lemmy_ml "Comments" 1) ∧
    length items = 3%nat.
Proof.
  destruct (response_preserves_order
              (lemmy_ml "Comments" 1)
              (body "comments" [thread_x; thread_x; thread_x])
              (Row "comments" ("comment", "ap_id") ("post", "name")
                   ("comment", "content") None)
              (PDict [("comments", PList [thread_x; thread_x; thread_x])])
              [thread_x; thread_x; thread_x])
    as (items & Hresp & Hlen & _);
    [repeat constructor | reflexivity .. | | by exists items].
  repeat constructor; eexists; apply row_item_emits; reflexivity.
Defined.

Lemma response_deterministic_witness :
  response (body "posts" []) (lemmy_ml "Posts" 1)
  = ((response (body "posts" []) (lemmy_ml "Posts" 1)).1,
     lemmy_ml "Posts" 1) ∧
  (response (body "posts" []) (lemmy_ml "Posts" 2)).1
  = (response (body "posts" []) (lemmy_ml "Posts" 1)).1.
Proof.
  apply (response_deterministic (body "posts" []) (lemmy_ml "Posts" 1)
           (lemmy_ml "Posts" 2)).
  reflexivity.
Defined.

Lemma response_depends_on_source_array_witness :
  response (body "communities" [foo]) (lemmy_ml "Communities" 1)
  = response
      {| Response_json :=
           Ok (PDict [("users", PNone); ("communities", PList [foo])]) |}
      (lemmy_ml "Communities" 1).
Proof.
  apply (response_depends_on_source_array
           (lemmy_ml "Communities" 1) _ _
           (Row "communities" ("community", "actor_id")
                ("community", "title") ("community", "description")
                (Some ""))
           (PDict [("communities", PList [foo])])
           (PDict [("users", PNone); ("communities", PList [foo])]));
    [repeat constructor | reflexivity ..].
Defined.

(** Against C2 as stated: the page number [10 ^ 4300] is 1 or more, yet
    [request] raises a [ValueError] on it and stores no URL. *)
Lemma request_huge_page_raises :
  ("Posts" ∈ kinds) ∧
  1 ≤ 10 ^ 4300 ∧
  ∃ msg,
    request "x" 1%nat (lemmy_ml "Posts" (10 ^ 4300))
    = (Err (ValueError msg), lemmy_ml "Posts" (10 ^ 4300)).
Proof.
  split; [repeat constructor |].
  split; [apply (Z.le_succ_l 0), Z.pow_pos_nonneg; lia |].
  destruct (str_of_int_Err (10 ^ Z.of_nat 4300)) as [msg Hmsg].
  { rewrite digits_pow10. apply Nat.lt_succ_diag_r. }
  exists msg.
  exact (request_str_raises (lemmy_ml "Posts" (10 ^ 4300)) "x" 1%nat
           {[ "pageno" := PInt (10 ^ 4300) ]} (PInt (10 ^ 4300))
           (ValueError msg) eq_refl eq_refl Hmsg).
Qed.

Lemma request_url_decodes_witness :
  request "a b" 1%nat (lemmy_ml "Posts" 3)
  = (Ok 1%nat,
     set_heap
       (<[1%nat :=
            <["url" :=
                PStr "https://lemmy.ml/api/v3/search?q=a+b&page=3&type_=Posts"]>
              {[ "pageno" := PInt 3 ]}]>
          (heap (lemmy_ml "Posts" 3))) (lemmy_ml "Posts" 3)) ∧
  parse_qsl "q=a+b&page=3&type_=Posts"
  = [("q", "a b"); ("page", "3"); ("type_", "Posts")].
Proof.
  assert (Hkind : "Posts" ∈ kinds) by repeat constructor.
  assert (Hn : 1 ≤ 3) by lia.
  destruct (request_url_decodes (lemmy_ml "Posts" 3) "a b" 1%nat
              {[ "pageno" := PInt 3 ]} 3 Hkind Hn eq_refl eq_refl)
    as [Hsmall _].
  destruct Hsmall as (qs & Hreq & -> & _ & Hdec & _).
  { apply Nat.leb_le. reflexivity. }
  split; [exact Hreq | exact Hdec].
Defined.

Lemma unsupported_kind_raised_by_response_witness :
  response (body "communities" [foo]) (lemmy_ml "Unknown" 1)
  = (Err (ValueError "Unsupported lemmy type: Unknown"),
     lemmy_ml "Unknown" 1).
Proof.
  destruct (unsupported_kind_raised_by_response (lemmy_ml "Unknown" 1))
    as [Hx _]; [exact kinds_Unknown |].
  by apply (Hx _ (PDict [("communities", PList [foo])])).
Defined.

Lemma request_frame_witness :
  ∃ d',
    heap (request "rocq" 1%nat (lemmy_ml "Users" 2)).2 !! 1%nat = Some d' ∧
    d' !! "pageno" = Some (PInt 2).
Proof.
  destruct (request_frame (lemmy_ml "Users" 2) "rocq" 1%nat
              {[ "pageno" := PInt 2 ]})
    as (d' & Hd' & Hframe & _); [reflexivity |].
  exists d'. split; [exact Hd' |]. by rewrite Hframe.
Defined.

End Instances.

(** ** Further properties of [request] *)

Lemma append_inj_l (a x y : string) : a +:+ x = a +:+ y → x = y.
Proof. induction a as [|c a IH]; simpl; [done |]. intros [= Heq]. by apply IH. Qed.

Lemma str_of_int_Ok_inv z s : str_of_int z = Ok s → s = decimal z.
Proof. unfold str_of_int. case_match; [done | by intros [= <-]]. Qed.

Section MoreRequest.
Context `{!Externals}.

(** A call that returns has converted its page. *)
Lemma request_Ok_str st query params d pageno r :
  heap st !! params = Some d →
  d !! "pageno" = Some pageno →
  (request query params st).1 = Ok r →
  ∃ page, str pageno = Ok page.
Proof.
  intros Hd Hpage. destruct (str pageno) as [page|e] eqn:Hstr; [by eexists |].
  by rewrite (request_str_raises _ _ _ _ _ _ Hd Hpage Hstr).
Qed.

(** X1.  [request] validates neither the page nor the kind: for an integer
    ['pageno'] of any sign, zero included, whose numeral has at most 4300
    digits, and whatever the configured kind, it returns [params] with a URL
    whose query string is the form encoding of [q], [page] and [type_] and
    decodes to them; the only integers it fails on are those of more digits,
    for which the conversion to [str] raises a [ValueError] and nothing is
    stored. *)
Theorem request_validates_nothing st query params d z :
  heap st !! params = Some d →
  d !! "pageno" = Some (PInt z) →
  ((digits z ≤ max_str_digits)%nat →
   ∃ qs,
     request query params st
     = (Ok params,
        set_heap
          (<[params :=
               <["url" := PStr (base_url st +:+ "api/v3/search?" +:+ qs)]> d]>
             (heap st)) st) ∧
     qs = form_urlencoded
            [("q", query); ("page", decimal z); ("type_", lemmy_type st)] ∧
     parse_qsl qs
     = [("q", query); ("page", decimal z); ("type_", lemmy_type st)]) ∧
  ((max_str_digits < digits z)%nat →
   ∃ msg, request query params st = (Err (ValueError msg), st)).
Proof.
  intros Hd Hpage. split.
  - intros Hstr%str_of_int_Ok. eexists.
    split; [exact (request_returns st query params d (PInt z) _ Hd Hpage Hstr) |].
    split; [done | apply form_urlencoded_decode].
  - intros [msg Hstr]%str_of_int_Err. exists msg.
    exact (request_str_raises st query params d (PInt z) _ Hd Hpage Hstr).
Qed.

(** X2.  Whenever [request] stores a URL, its query string has the fixed
    shape [q=Q&page=P&type_=K], where [Q], [P] and [K] are the query, the
    page and the kind escaped byte by byte: they hold unreserved characters,
    [+] and [%] only - no [&], no [=], no raw space - and [Q] unquotes to the
    query.  The text of a query can neither add a parameter nor change
    one. *)
Theorem request_query_string_chars st query params d pageno page :
  heap st !! params = Some d →
  d !! "pageno" = Some pageno →
  str pageno = Ok page →
  (heap (request query params st).2 !! params) ≫= (.!! "url")
  = Some (PStr (base_url st +:+ "api/v3/search?" +:+
                "q=" +:+ plus_bytes query +:+
                "&page=" +:+ plus_bytes page +:+
                "&type_=" +:+ plus_bytes (lemmy_type st))) ∧
  all_chars value_char (plus_bytes query) = true ∧
  all_chars value_char (plus_bytes page) = true ∧
  all_chars value_char (plus_bytes (lemmy_type st)) = true ∧
  unquote_plus (plus_bytes query) = query.
Proof.
  intros Hd Hpage Hstr.
  rewrite (request_returns _ _ _ _ _ _ Hd Hpage Hstr). cbn [snd].
  rewrite stored_url. split; [reflexivity |].
  rewrite !plus_bytes_value. repeat split.
  apply Quote.unquote_plus_bytes.
Qed.

(** X3.  Under one base url, two calls with integer pages that return and
    leave the same URL had the same query, the same page number and the same
    kind: distinct searches never share a URL. *)
Theorem request_injective st1 st2 query1 query2 params1 params2 d1 d2 n1 n2 u :
  base_url st1 = base_url st2 →
  heap st1 !! params1 = Some d1 →
  d1 !! "pageno" = Some (PInt n1) →
  heap st2 !! params2 = Some d2 →
  d2 !! "pageno" = Some (PInt n2) →
  (request query1 params1 st1).1 = Ok params1 →
  (request query2 params2 st2).1 = Ok params2 →
  (heap (request query1 params1 st1).2 !! params1) ≫= (.!! "url") = Some u →
  (heap (request query2 params2 st2).2 !! params2) ≫= (.!! "url") = Some u →
  query1 = query2 ∧ n1 = n2 ∧ lemmy_type st1 = lemmy_type st2.
Proof.
  intros Hbase Hd1 Hp1 Hd2 Hp2 Hret1 Hret2.
  destruct (request_Ok_str _ _ _ _ _ _ Hd1 Hp1 Hret1) as [page1 Hs1].
  destruct (request_Ok_str _ _ _ _ _ _ Hd2 Hp2 Hret2) as [page2 Hs2].
  rewrite (request_returns _ _ _ _ _ _ Hd1 Hp1 Hs1),
          (request_returns _ _ _ _ _ _ Hd2 Hp2 Hs2). cbn [snd].
  rewrite !stored_url, Hbase. intros [= <-] [= Hurl].
  apply append_inj_l, (append_inj_l "api/v3/search?") in Hurl.
  apply (f_equal parse_qsl) in Hurl.
  rewrite !form_urlencoded_decode in Hurl.
  injection Hurl as Hq Hn Hk. repeat split; [done | | done].
  apply str_of_int_Ok_inv in Hs1, Hs2. subst page1 page2.
  apply (f_equal int_of_str) in Hn. rewrite !decimal_inv in Hn.
  by injection Hn.
Qed.

(** X4.  A [params] dictionary can be used again: the URL a call stores
    replaces the one of an earlier call, so that a second call leaves exactly
    what it would have left had the first not happened. *)
Theorem request_overwrites_url st query1 query2 params d pageno :
  heap st !! params = Some d →
  d !! "pageno" = Some pageno →
  request query2 params (request query1 params st).2
  = request query2 params st.
Proof.
  intros Hd Hpage. destruct (str pageno) as [page|e] eqn:Hstr.
  - rewrite (request_returns st query1 _ _ _ _ Hd Hpage Hstr). cbn [snd].
    erewrite (request_returns _ query2);
      [| apply lookup_insert_eq | by rewrite lookup_insert_ne | exact Hstr].
    rewrite (request_returns st query2 _ _ _ _ Hd Hpage Hstr).
    unfold set_heap. cbn [base_url lemmy_type heap].
    by rewrite !insert_insert_eq.
  - by rewrite (request_str_raises st query1 _ _ _ _ Hd Hpage Hstr).
Qed.

End MoreRequest.

(** ** Further properties of [response] *)

Lemma getitem_Err v k x : getitem v k = Err x → x = TypeError ∨ x = KeyError k.
Proof.
  unfold getitem. destruct v; try (intros [= <-]; by left).
  destruct (dict_lookup k d); [done |]. intros [= <-]. by right.
Qed.

Lemma getitem_Ok_dict v k y : getitem v k = Ok y → ∃ d, v = PDict d.
Proof. destruct v; try done. by eexists. Qed.

Lemma iter_Err v x : iter v = Err x → x = TypeError.
Proof. destruct v; simpl; try done; by intros [= <-]. Qed.

Lemma dispatch_table_sub kind r :
  dispatch_table kind = Some r →
  is_Some (content_default r) → (content_field r).1 = (url_field r).1.
Proof.
  unfold dispatch_table.
  repeat (case String.eqb_spec; intros _; [by intros [= <-] [? [=]] || by intros [= <-] |]).
  done.
Qed.

Ltac in_list :=
  repeat first [apply list_elem_of_here | apply list_elem_of_further].

Section MoreResponse.
Context `{!Externals}.

Lemma response_Ok st resp r json elems items :
  dispatch_table (lemmy_type st) = Some r →
  Response_json resp = Ok json →
  getitem json (source_array r) = Ok (PList elems) →
  response resp st = (Ok items, st) ↔ Forall2 (emits r) elems items.
Proof.
  intros Hr Hjson Harr. rewrite (response_table _ _ _ _ Hr Hjson).
  rewrite <- (parse_Ok r json elems items Harr).
  split; [by intros [= ->] | by intros ->].
Qed.

Lemma parse_first_Err r json before e after x :
  getitem json (source_array r) = Ok (PList (before ++ e :: after)) →
  Forall (λ e', ∃ it, emits r e' it) before →
  row_item r e = Err x →
  parse r json = Err x.
Proof.
  intros Harr Hwf He. unfold parse. rewrite Harr. simpl.
  destruct (mapM_total (row_item r) before) as [rs Hrs].
  { eapply Forall_impl; [exact Hwf |].
    intros e' [it Hit]. exists it. by apply row_item_emits. }
  by apply (mapM_first_Err (row_item r) before e after rs x).
Qed.

Lemma row_item_errors r e x :
  (is_Some (content_default r) → (content_field r).1 = (url_field r).1) →
  row_item r e = Err x →
  x = TypeError ∨ ∃ k, x = KeyError k ∧ k ∈ row_keys r.
Proof.
  destruct r as [src [us uf] [ts tf] [cs cf] dflt].
  unfold row_item, row_keys. simpl. intros Hsub.
  assert (Hkey : ∀ v k, k ∈ [src; us; uf; ts; tf; cs; cf] →
            getitem v k = Err x →
            x = TypeError ∨ ∃ k', x = KeyError k' ∧
                                  k' ∈ [src; us; uf; ts; tf; cs; cf]).
  { intros v k Hk [-> | ->]%getitem_Err; [by left | right; by exists k]. }
  destruct (getitem e us) as [o1|x1] eqn:H1; simpl;
    [| intros [= ->]; apply (Hkey e us); [in_list | done]].
  destruct (getitem o1 uf) as [u|x2] eqn:H2; simpl;
    [| intros [= ->]; apply (Hkey o1 uf); [in_list | done]].
  destruct (getitem e ts) as [o2|x3] eqn:H3; simpl;
    [| intros [= ->]; apply (Hkey e ts); [in_list | done]].
  destruct (getitem o2 tf) as [t|x4] eqn:H4; simpl;
    [| intros [= ->]; apply (Hkey o2 tf); [in_list | done]].
  destruct (getitem e cs) as [o3|x5] eqn:H5; simpl;
    [| intros [= ->]; apply (Hkey e cs); [in_list | done]].
  assert (Hfmt : ∀ c (y : string → Result),
            (_format_content c ≫= λ c', Ok (y c')) = Err x → x = TypeError).
  { intros c y. destruct c; simpl; try done; by intros [= <-]. }
  destruct dflt as [dflt|].
  - rewrite Hsub in H5 by by eexists. rewrite H1 in H5. injection H5 as <-.
    destruct (getitem_Ok_dict _ _ _ H2) as [d ->]. simpl.
    destruct (dict_lookup cf d) as [c|]; simpl; intros Hx; [| done].
    left. by apply (Hfmt c (λ c', {| url := u; title := t; content := c' |})).
  - destruct (getitem o3 cf) as [c|x6] eqn:H6; simpl;
      [| intros [= ->]; apply (Hkey o3 cf); [in_list | done]].
    intros Hx. left.
    by apply (Hfmt c (λ c', {| url := u; title := t; content := c' |})).
Qed.

(** X5.  On a body that is JSON, [response] raises nothing but the
    [ValueError] of an unsupported kind, a [TypeError], or a [KeyError] for
    one of the keys of the kind's line; in particular the [get] calls never
    raise an [AttributeError], since the same sub-object has been subscripted
    just before. *)
Theorem response_errors st resp json x :
  Response_json resp = Ok json →
  (response resp st).1 = Err x →
  ((lemmy_type st ∉ kinds) ∧
   x = ValueError ("Unsupported lemmy type: " +:+ lemmy_type st)) ∨
  (∃ r, dispatch_table (lemmy_type st) = Some r ∧
        (x = TypeError ∨ ∃ k, x = KeyError k ∧ k ∈ row_keys r)).
Proof.
  intros Hjson. destruct (decide (lemmy_type st ∈ kinds)) as [Hk | Hk].
  - apply dispatch_table_kinds in Hk as [r Hr].
    rewrite (response_table _ _ _ _ Hr Hjson). cbn [fst]. intros Hx.
    right. exists r. split; [done |]. revert Hx. unfold parse.
    destruct (getitem json (source_array r)) as [array|x1] eqn:Harr; simpl.
    + destruct (iter array) as [items|x2] eqn:Hiter; simpl.
      * intros (e & _ & He)%mapM_Err.
        apply (row_item_errors r e); [| done].
        by apply (dispatch_table_sub (lemmy_type st)).
      * intros [= ->]. left. by apply (iter_Err array).
    + intros [= ->]. apply getitem_Err in Harr as [-> | ->]; [by left |].
      right. eexists. split; [done |]. unfold row_keys. in_list.
  - rewrite (response_unsupported _ _ _ Hk Hjson). intros [= <-]. by left.
Qed.

(** X6.  For each of the four kinds, a body that is an object without the
    kind's array (an error object, say) makes [response] raise the [KeyError]
    of that array's name, and a body that is no object at all a
    [TypeError]. *)
Theorem response_missing_array st resp r json :
  lemmy_type st ∈ kinds →
  dispatch_table (lemmy_type st) = Some r →
  Response_json resp = Ok json →
  (∀ d, json = PDict d → dict_lookup (source_array r) d = None →
        response resp st = (Err (KeyError (source_array r)), st)) ∧
  ((∀ d, json ≠ PDict d) → response resp st = (Err TypeError, st)).
Proof.
  intros _ Hr Hjson. rewrite (response_table _ _ _ _ Hr Hjson).
  unfold parse. split.
  - intros d -> Hnone. simpl. by rewrite Hnone.
  - intros Hno. destruct json; try done. by destruct (Hno d).
Qed.

(** X7.  For each of the four kinds, when the value under the array's name
    is not a list: an empty dictionary or an empty string is run over as an
    empty array and gives no items, and anything else - null, a number, a
    boolean, a dictionary or string that is not empty - makes [response]
    raise a [TypeError]. *)
Theorem response_source_not_a_list st resp r json v :
  lemmy_type st ∈ kinds →
  dispatch_table (lemmy_type st) = Some r →
  Response_json resp = Ok json →
  getitem json (source_array r) = Ok v →
  (∀ l, v ≠ PList l) →
  response resp st
  = (match v with
     | PDict [] | PStr EmptyString => Ok []
     | _ => Err TypeError
     end, st).
Proof.
  intros _ Hr Hjson Harr Hno. rewrite (response_table _ _ _ _ Hr Hjson).
  unfold parse. rewrite Harr. f_equal.
  destruct v as [| | | |s|l|d]; try done.
  - by destruct s.
  - by destruct (Hno l).
  - by destruct d as [|[k w] d].
Qed.

(** X8.  For each of the four kinds, one element for which the table has no
    item (a sub-object or field is missing or of the wrong type) makes the
    whole call fail: no list is returned, not even of the elements before
    it, and the error is a [TypeError] or a [KeyError] for one of the keys
    of the kind's line. *)
Theorem response_all_or_nothing st resp r json elems e :
  lemmy_type st ∈ kinds →
  dispatch_table (lemmy_type st) = Some r →
  Response_json resp = Ok json →
  getitem json (source_array r) = Ok (PList elems) →
  e ∈ elems →
  (∀ it, ¬ emits r e it) →
  ∃ x, response resp st = (Err x, st) ∧
       (x = TypeError ∨ ∃ k, x = KeyError k ∧ k ∈ row_keys r).
Proof.
  intros _ Hr Hjson Harr Hin Hnone.
  rewrite (response_table _ _ _ _ Hr Hjson). unfold parse.
  rewrite Harr. simpl.
  destruct (row_item r e) as [it|x0] eqn:He;
    [by apply row_item_emits, Hnone in He |].
  destruct (mapM_some_Err (row_item r) elems e x0 Hin He) as [x Hx].
  exists x. split; [by rewrite Hx |].
  apply mapM_Err in Hx as (e' & _ & He').
  apply (row_item_errors r e'); [| done].
  by apply (dispatch_table_sub (lemmy_type st)).
Qed.

(** X9.  For each of the four kinds, a content field that is present but is
    not a string (JSON null, a number, an object) makes [response] raise a
    [TypeError]: the empty-string default stands in for a missing field
    only, never for a null one. *)
Theorem content_not_a_string_raises st resp r json before e after v :
  lemmy_type st ∈ kinds →
  dispatch_table (lemmy_type st) = Some r →
  Response_json resp = Ok json →
  getitem json (source_array r) = Ok (PList (before ++ e :: after)) →
  Forall (λ e', ∃ it, emits r e' it) before →
  is_Some (at_path e (url_field r)) →
  is_Some (at_path e (title_field r)) →
  at_path e (content_field r) = Some v →
  (∀ s, v ≠ PStr s) →
  response resp st = (Err TypeError, st).
Proof.
  intros _ Hr Hjson Harr Hwf [u Hu] [t Ht] Hc Hv.
  rewrite (response_table _ _ _ _ Hr Hjson). f_equal.
  apply (parse_first_Err r json before e after); [done | done |].
  revert Hu Ht Hc. unfold row_item, at_path.
  destruct (getitem e (url_field r).1) as [o1|]; simpl; [| done].
  destruct (getitem o1 (url_field r).2); simpl; [intros _ | done].
  destruct (getitem e (title_field r).1) as [o2|]; simpl; [| done].
  destruct (getitem o2 (title_field r).2); simpl; [intros _ | done].
  destruct (getitem e (content_field r).1) as [o3|]; simpl; [| done].
  destruct (getitem o3 (content_field r).2) as [c|] eqn:Hget; simpl; [| done].
  intros [= ->].
  assert (Hfmt : _format_content v = Err TypeError).
  { destruct v; try done. by destruct (Hv s). }
  destruct (getitem_Ok_dict _ _ _ Hget) as [d ->]. revert Hget. simpl.
  destruct (content_default r), (dict_lookup _ d); simpl; try done;
    intros [= ->]; by rewrite Hfmt.
Qed.

(** X10.  For each of the four kinds, only the url, title and content of an
    element are read: a response whose elements give the same three values,
    position by position, has the same items, whatever else the elements
    hold. *)
Theorem response_ignores_other_fields st resp1 resp2 r json1 json2
    elems1 elems2 items :
  lemmy_type st ∈ kinds →
  dispatch_table (lemmy_type st) = Some r →
  Response_json resp1 = Ok json1 →
  Response_json resp2 = Ok json2 →
  getitem json1 (source_array r) = Ok (PList elems1) →
  getitem json2 (source_array r) = Ok (PList elems2) →
  Forall2 (λ e1 e2, at_path e1 (url_field r) = at_path e2 (url_field r) ∧
                    at_path e1 (title_field r) = at_path e2 (title_field r) ∧
                    content_source r e1 = content_source r e2)
          elems1 elems2 →
  response resp1 st = (Ok items, st) →
  response resp2 st = (Ok items, st).
Proof.
  intros _ Hr H1 H2 Harr1 Harr2 Hsame.
  rewrite (response_Ok st resp1 r json1 elems1 items Hr H1 Harr1),
          (response_Ok st resp2 r json2 elems2 items Hr H2 Harr2).
  clear Harr1 Harr2. revert items.
  induction Hsame as [|e1 e2 l1 l2 (Hu & Ht & Hc) _ IH]; intros items Hitems.
  - inversion Hitems. constructor.
  - inversion Hitems as [|? it ? its Hit Hits]; subst.
    constructor; [| by apply IH].
    unfold emits in *. by rewrite <- Hu, <- Ht, <- Hc.
Qed.

(** X11.  For each of the four kinds, the items of an array that is two
    arrays one after the other are the items of the first followed by the
    items of the second, and the long array is read with success exactly
    when both parts are: no element's item depends on another element. *)
Theorem response_concatenates st resp1 resp2 resp r json1 json2 json
    elems1 elems2 items :
  lemmy_type st ∈ kinds →
  dispatch_table (lemmy_type st) = Some r →
  Response_json resp1 = Ok json1 →
  Response_json resp2 = Ok json2 →
  Response_json resp = Ok json →
  getitem json1 (source_array r) = Ok (PList elems1) →
  getitem json2 (source_array r) = Ok (PList elems2) →
  getitem json (source_array r) = Ok (PList (elems1 ++ elems2)) →
  response resp st = (Ok items, st) ↔
  ∃ items1 items2,
    response resp1 st = (Ok items1, st) ∧
    response resp2 st = (Ok items2, st) ∧
    items = items1 ++ items2.
Proof.
  intros _ Hr H1 H2 H12 Harr1 Harr2 Harr.
  rewrite (response_Ok st resp r json _ items Hr H12 Harr).
  rewrite Forall2_app_inv_l.
  split; intros (items1 & items2 & Hi1 & Hi2 & Heq); exists items1, items2.
  - by rewrite (response_Ok st resp1 r json1 elems1 items1 Hr H1 Harr1),
               (response_Ok st resp2 r json2 elems2 items2 Hr H2 Harr2).
  - by rewrite <- (response_Ok st resp1 r json1 elems1 items1 Hr H1 Harr1),
               <- (response_Ok st resp2 r json2 elems2 items2 Hr H2 Harr2).
Qed.

End MoreResponse.

(** ** The further properties at concrete inputs *)

Section MoreInstances.
Local Existing Instance plain.

Lemma request_validates_nothing_witness :
  request "x" 1%nat (lemmy_ml "Unknown" (-1))
  = (Ok 1%nat,
     set_heap
       (<[1%nat :=
            <["url" :=
                PStr "https://lemmy.ml/api/v3/search?q=x&page=-1&type_=Unknown"]>
              {[ "pageno" := PInt (-1) ]}]>
          (heap (lemmy_ml "Unknown" (-1)))) (lemmy_ml "Unknown" (-1))) ∧
  parse_qsl "q=x&page=-1&type_=Unknown"
  = [("q", "x"); ("page", "-1"); ("type_", "Unknown")].
Proof.
  destruct (request_validates_nothing (lemmy_ml "Unknown" (-1)) "x" 1%nat
              {[ "pageno" := PInt (-1) ]} (-1) eq_refl eq_refl)
    as [Hsmall _].
  destruct Hsmall as (qs & Hreq & -> & Hdec).
  { apply Nat.leb_le. reflexivity. }
  split; [exact Hreq | exact Hdec].
Defined.

Lemma request_query_string_chars_witness :
  (heap (request "a&b=c d" 1%nat (lemmy_ml "Posts" 2)).2 !! 1%nat)
    ≫= (.!! "url")
  = Some (PStr "https://lemmy.ml/api/v3/search?q=a%26b%3Dc+d&page=2&type_=Posts") ∧
  all_chars value_char "a%26b%3Dc+d" = true ∧
  all_chars value_char "2" = true ∧
  all_chars value_char "Posts" = true ∧
  unquote_plus "a%26b%3Dc+d" = "a&b=c d".
Proof.
  exact (request_query_string_chars (lemmy_ml "Posts" 2) "a&b=c d" 1%nat
           {[ "pageno" := PInt 2 ]} (PInt 2) "2" eq_refl eq_refl eq_refl).
Defined.

Lemma request_injective_witness :
  "a b" = "a b" ∧ 3 = 3 ∧ "Posts" = "Posts".
Proof.
  exact (request_injective (lemmy_ml "Posts" 3) (lemmy_ml "Posts" 3)
           "a b" "a b" 1%nat 1%nat
           {[ "pageno" := PInt 3 ]} {[ "pageno" := PInt 3 ]} 3 3
           (PStr "https://lemmy.ml/api/v3/search?q=a+b&page=3&type_=Posts")
           eq_refl eq_refl eq_refl eq_refl eq_refl eq_refl eq_refl
           eq_refl eq_refl).
Defined.

Lemma request_overwrites_url_witness :
  request "second" 1%nat (request "first" 1%nat (lemmy_ml "Users" 1)).2
  = request "second" 1%nat (lemmy_ml "Users" 1).
Proof.
  exact (request_overwrites_url (lemmy_ml "Users" 1) "first" "second" 1%nat
           {[ "pageno" := PInt 1 ]} (PInt 1) eq_refl eq_refl).
Defined.

Lemma response_errors_witness :
  (("Comments" ∉ kinds) ∧
   KeyError "content" = ValueError ("Unsupported lemmy type: " +:+ "Comments")) ∨
  (∃ r, dispatch_table "Comments" = Some r ∧
        (KeyError "content" = TypeError ∨
         ∃ k, KeyError "content" = KeyError k ∧ k ∈ row_keys r)).
Proof.
  exact (response_errors (lemmy_ml "Comments" 1)
           (body "comments" [no_content])
           (PDict [("comments", PList [no_content])]) (KeyError "content")
           eq_refl eq_refl).
Defined.

Lemma response_missing_array_witness :
  response {| Response_json := Ok (PDict [("error", PStr "rate_limit")]) |}
           (lemmy_ml "Communities" 1)
  = (Err (KeyError "communities"), lemmy_ml "Communities" 1).
Proof.
  assert (Hkind : "Communities" ∈ kinds) by in_list.
  destruct (response_missing_array (lemmy_ml "Communities" 1)
              {| Response_json := Ok (PDict [("error", PStr "rate_limit")]) |}
              (Row "communities" ("community", "actor_id")
                   ("community", "title") ("community", "description")
                   (Some ""))
              (PDict [("error", PStr "rate_limit")]) Hkind eq_refl eq_refl)
    as [Hx _].
  exact (Hx [("error", PStr "rate_limit")] eq_refl eq_refl).
Defined.

Lemma response_source_not_a_list_witness :
  response {| Response_json := Ok (PDict [("users", PNone)]) |}
           (lemmy_ml "Users" 1)
  = (Err TypeError, lemmy_ml "Users" 1).
Proof.
  assert (Hkind : "Users" ∈ kinds) by in_list.
  apply (response_source_not_a_list (lemmy_ml "Users" 1)
           {| Response_json := Ok (PDict [("users", PNone)]) |}
           (Row "users" ("person", "actor_id") ("person", "name")
                ("person", "bio") (Some ""))
           (PDict [("users", PNone)]) PNone Hkind eq_refl eq_refl eq_refl).
  intros l. discriminate.
Defined.

Lemma response_all_or_nothing_witness :
  ∃ x,
    response (body "communities" [foo; no_content]) (lemmy_ml "Communities" 1)
    = (Err x, lemmy_ml "Communities" 1) ∧
    (x = TypeError ∨
     ∃ k, x = KeyError k ∧
          k ∈ ["communities"; "community"; "actor_id"; "community"; "title";
               "community"; "description"]).
Proof.
  assert (Hkind : "Communities" ∈ kinds) by in_list.
  assert (Hin : no_content ∈ [foo; no_content]) by in_list.
  apply (response_all_or_nothing (lemmy_ml "Communities" 1)
           (body "communities" [foo; no_content])
           (Row "communities" ("community", "actor_id")
                ("community", "title") ("community", "description")
                (Some ""))
           (PDict [("communities", PList [foo; no_content])])
           [foo; no_content] no_content Hkind eq_refl eq_refl eq_refl Hin).
  intros it [Hu _]. discriminate Hu.
Defined.

Lemma content_not_a_string_raises_witness :
  response (body "communities" [foo; bar]) (lemmy_ml "Communities" 1)
  = (Err TypeError, lemmy_ml "Communities" 1).
Proof.
  assert (Hkind : "Communities" ∈ kinds) by in_list.
  apply (content_not_a_string_raises (lemmy_ml "Communities" 1)
           (body "communities" [foo; bar])
           (Row "communities" ("community", "actor_id")
                ("community", "title") ("community", "description")
                (Some ""))
           (PDict [("communities", PList [foo; bar])])
           [foo] bar [] PNone Hkind eq_refl eq_refl eq_refl).
  - constructor; [| constructor]. eexists. apply row_item_emits. reflexivity.
  - by eexists.
  - by eexists.
  - reflexivity.
  - intros s. discriminate.
Defined.

Lemma response_ignores_other_fields_witness :
  response (body "communities" [foo_more]) (lemmy_ml "Communities" 1)
  = (Ok [{| url := PStr "https://x/c/foo"; title := PStr "Foo";
            content := "" |}],
     lemmy_ml "Communities" 1).
Proof.
  assert (Hkind : "Communities" ∈ kinds) by in_list.
  apply (response_ignores_other_fields (lemmy_ml "Communities" 1)
           (body "communities" [foo]) (body "communities" [foo_more])
           (Row "communities" ("community", "actor_id")
                ("community", "title") ("community", "description")
                (Some ""))
           (PDict [("communities", PList [foo])])
           (PDict [("communities", PList [foo_more])])
           [foo] [foo_more] _ Hkind eq_refl eq_refl eq_refl eq_refl eq_refl);
    [| reflexivity].
  constructor; [| constructor]. by repeat split.
Defined.

Lemma response_concatenates_witness :
  response (body "communities" [foo; foo_more]) (lemmy_ml "Communities" 1)
  = (Ok [{| url := PStr "https://x/c/foo"; title := PStr "Foo";
            content := "" |};
         {| url := PStr "https://x/c/foo"; title := PStr "Foo";
            content := "" |}],
     lemmy_ml "Communities" 1).
Proof.
  assert (Hkind : "Communities" ∈ kinds) by in_list.
  apply (response_concatenates (lemmy_ml "Communities" 1)
           (body "communities" [foo]) (body "communities" [foo_more])
           (body "communities" [foo; foo_more])
           (Row "communities" ("community", "actor_id")
                ("community", "title") ("community", "description")
                (Some ""))
           (PDict [("communities", PList [foo])])
           (PDict [("communities", PList [foo_more])])
           (PDict [("communities", PList [foo; foo_more])])
           [foo] [foo_more] _ Hkind eq_refl eq_refl eq_refl eq_refl
           eq_refl eq_refl eq_refl).
  eexists _, _. split; [reflexivity |]. split; reflexivity.
Defined.

End MoreInstances.
